(** * budgetTrackerBackend: the REST handlers of [server.js] over a model of
    their SQLite store.

    The development follows the source file top to bottom: the values that
    cross the driver boundary, the four tables of the [db.serialize] block,
    the twelve SQL statements the handlers issue, the callback plumbing of
    [db.run] / [db.all] / [db.get], the ten route handlers, and then the
    properties of the composite create and delete protocols.

    Outside the model: CORS, body parsing and routing of unknown paths, the
    error middleware, [app.listen] and the SIGINT hook; numbers that are not
    integers; and the interleaving of the statements of two requests (a run
    serves its requests one after the other). *)

From stdpp Require Import base option list gmap strings pretty.
From Stdlib Require Import ZArith String Ascii Sorted Lia.

Open Scope string_scope.
Open Scope list_scope.
Open Scope Z_scope.

(** ** Values *)

(** What [req.body], [req.query] and [req.params] hand to a handler.  A field
    that is absent from the JSON body destructures to [undefined].  Numbers
    are the integers (binary floating point is outside the model), and only
    scalar fields are considered. *)
Inductive jsval :=
| JUndefined
| JNull
| JBool (b : bool)
| JNum (n : Z)
| JStr (s : string).

(** SQLite storage classes reachable from [jsval] (no REAL, no BLOB). *)
Inductive value :=
| VNull
| VInt (n : Z)
| VText (s : string).

#[global] Instance jsval_eq_dec : EqDecision jsval.
Proof. solve_decision. Defined.
#[global] Instance value_eq_dec : EqDecision value.
Proof. solve_decision. Defined.

(** How the sqlite3 driver binds a JavaScript value to a [?] placeholder:
    [undefined] leaves the placeholder unbound, which SQLite reads as NULL;
    booleans are bound as the integers 1 and 0. *)
Definition bind_param (v : jsval) : value :=
  match v with
  | JUndefined => VNull
  | JNull => VNull
  | JBool b => VInt (if b then 1 else 0)
  | JNum n => VInt n
  | JStr s => VText s
  end.

(** How a column value comes back in a row object of [db.all]. *)
Definition js_of_value (v : value) : jsval :=
  match v with
  | VNull => JNull
  | VInt n => JNum n
  | VText s => JStr s
  end.

(** A JSON object as [res.json] receives it: its keys in source order. *)
Definition object := list (string * jsval).

(** ** Schema (server.js, lines 24-67) *)

Inductive coltype := INTEGER | TEXT | BOOLEAN.

Record column := Column {
  col_name : string;
  col_type : coltype;
  col_pk : bool;        (* PRIMARY KEY AUTOINCREMENT *)
  col_notnull : bool    (* NOT NULL *)
}.

Record table := Table {
  tbl_name : string;
  tbl_cols : list column
}.

Definition users_table : table :=
  Table "users"
    [ Column "userid" INTEGER true false;
      Column "username" TEXT false true;
      Column "password" TEXT false true;
      Column "email" TEXT false true;
      Column "timestamp" TEXT false true;
      Column "resetTokenId" TEXT false false ].

Definition transactions_table : table :=
  Table "transactions"
    [ Column "transactionid" INTEGER true false;
      Column "isExpense" BOOLEAN false true;
      Column "amount" INTEGER false true;
      Column "categoryid" INTEGER false true;
      Column "description" TEXT false false;
      Column "timestamp" TEXT false true ].

(** The two FOREIGN KEY clauses of this table are not enforced: the handlers
    never switch [PRAGMA foreign_keys] on. *)
Definition user_transaction_mapping_table : table :=
  Table "user_transaction_mapping"
    [ Column "userid" INTEGER false true;
      Column "transactionid" INTEGER false true ].

Definition resetTokens_table : table :=
  Table "resetTokens"
    [ Column "id" INTEGER true false;
      Column "token" TEXT false true;
      Column "expiresAt" TEXT false true ].

Definition schema : list table :=
  [ users_table; transactions_table; user_transaction_mapping_table;
    resetTokens_table ].

(** A column may hold NULL when it is neither declared NOT NULL nor the
    integer primary key (an alias of the rowid, which is never NULL). *)
Definition nullable (c : column) : bool :=
  negb (col_notnull c) && negb (col_pk c).

Definition nullable_columns (t : table) : list (string * string) :=
  map (λ c, (tbl_name t, col_name c)) (filter (λ c, nullable c = true) (tbl_cols t)).

(** The columns an INSERT of the handlers supplies: all but the primary key. *)
Definition data_cols (t : table) : list column :=
  filter (λ c, col_pk c = false) (tbl_cols t).

(** ** Rows and the store *)

Record user_row := UserRow {
  username : value;
  password : value;
  email : value;
  u_timestamp : value;
  resetTokenId : value
}.

Record transaction_row := TransactionRow {
  isExpense : value;
  amount : value;
  categoryid : value;
  description : value;
  t_timestamp : value
}.

Record mapping_row := MappingRow {
  m_userid : value;
  m_transactionid : value
}.

Record token_row := TokenRow {
  token : value;
  expiresAt : value
}.

(** The values of a row in the order of [data_cols]. *)
Definition user_values (r : user_row) : list value :=
  [username r; password r; email r; u_timestamp r; resetTokenId r].
Definition transaction_values (r : transaction_row) : list value :=
  [isExpense r; amount r; categoryid r; description r; t_timestamp r].
Definition mapping_values (r : mapping_row) : list value :=
  [m_userid r; m_transactionid r].
Definition token_values (r : token_row) : list value :=
  [token r; expiresAt r].

(** The database file.  A table with an INTEGER PRIMARY KEY is a map from
    that key to the rest of the row; the [_seq] fields are the table's entry
    in [sqlite_sequence], kept by AUTOINCREMENT.  The mapping table has no
    declared key and may hold the same pair more than once: a list, oldest
    row first. *)
Record store := Store {
  users : gmap Z user_row;
  users_seq : Z;
  transactions : gmap Z transaction_row;
  transactions_seq : Z;
  user_transaction_mapping : list mapping_row;
  resetTokens : gmap Z token_row;
  resetTokens_seq : Z
}.

(** What the [CREATE TABLE IF NOT EXISTS] block leaves when the file is new. *)
Definition empty_store : store :=
  Store ∅ 0 ∅ 0 [] ∅ 0.

(** Largest key in use, 0 for an empty table. *)
Definition max_rowid {A} (m : gmap Z A) : Z :=
  foldr Z.max 0 (map fst (map_to_list m)).

(** AUTOINCREMENT: one more than the largest key the table has ever held. *)
Definition next_rowid {A} (seq : Z) (m : gmap Z A) : Z :=
  Z.max seq (max_rowid m) + 1.

(** First NOT NULL column of [cols] that [vals] leaves NULL, as the message
    the driver reports. *)
Fixpoint not_null_violation (tname : string) (cols : list column)
    (vals : list value) : option string :=
  match cols, vals with
  | c :: cols', v :: vals' =>
      if col_notnull c && bool_decide (v = VNull)
      then Some ("SQLITE_CONSTRAINT: NOT NULL constraint failed: "
                 +:+ tname +:+ "." +:+ col_name c)
      else not_null_violation tname cols' vals'
  | _, _ => None
  end.

Definition check_not_null (t : table) (vals : list value) : option string :=
  not_null_violation (tbl_name t) (data_cols t) vals.

(** The same check for an UPDATE, which tests only the column it sets. *)
Definition check_column (t : table) (name : string) (v : value) : option string :=
  not_null_violation (tbl_name t)
    (filter (λ c, col_name c = name) (tbl_cols t)) [v].

(** A row as [SELECT *] returns it: every column of the table, key first. *)
Definition row_object (t : table) (key : option Z) (vals : list value) : object :=
  zip (map col_name (tbl_cols t))
      (map js_of_value (match key with Some k => VInt k :: vals | None => vals end)).

(** ** The statements of the handlers *)

(** The twelve SQL texts of [server.js], each with the values bound to its
    placeholders in the order of the parameter array. *)
Inductive sql :=
| SelectOne
| SelectUsers
| InsertUser (username password email timestamp : value)
| SelectResetTokens (token : value)
| InsertResetToken (token expiresAt : value)
| UpdateResetTokenId (tokenid userid : value)
| UpdatePassword (password userid : value)
| InsertTransaction (isExpense amount categoryid description timestamp : value)
| InsertMapping (userid transactionid : value)
| SelectTransactionsOf (userId : value)
| DeleteTransaction (transactionid : value)
| DeleteMapping (transactionid : value).

(** What a completed statement hands to its callback: [this.lastID] and
    [this.changes] of [db.run], the rows of [db.all].  [lastID] is the key
    generated by an INSERT into a table with an integer primary key and
    [changes] the number of rows an UPDATE or DELETE touched; the handlers
    read them only there, and elsewhere the model leaves them 0. *)
Record reply := Reply {
  lastID : Z;
  changes : Z;
  rows : list object
}.

(** SQLite's conversion of a text to an integer under NUMERIC affinity
    ([None] when the text does not read as an integer), and of an integer to
    its text under TEXT affinity.  The statements below depend on the
    conversions only through these two functions. *)
Class Conversions := {
  numeric : string → option Z;
  render : Z → string
}.

Section Engine.

Context {conv : Conversions}.

Definition numeric_affinity (v : value) : value :=
  match v with
  | VText s => match numeric s with Some n => VInt n | None => v end
  | _ => v
  end.

Definition text_affinity (v : value) : value :=
  match v with
  | VInt n => VText (render n)
  | _ => v
  end.

(** Column affinity of a declared type: INTEGER gives INTEGER affinity, TEXT
    gives TEXT, and BOOLEAN (no rule of SQLite matches the name) NUMERIC; on
    the values of the model INTEGER and NUMERIC affinity coincide. *)
Definition affinity (t : coltype) (v : value) : value :=
  match t with
  | INTEGER => numeric_affinity v
  | TEXT => text_affinity v
  | BOOLEAN => numeric_affinity v
  end.

(** The [=] of a WHERE or ON clause once affinities are applied: NULL equals
    nothing, and an integer never equals a text. *)
Definition sql_eq (a b : value) : bool :=
  match a, b with
  | VInt x, VInt y => bool_decide (x = y)
  | VText s, VText t => bool_decide (s = t)
  | _, _ => false
  end.

(** [WHERE <integer primary key> = ?]: the key the placeholder selects. *)
Definition rowid_of (p : value) : option Z :=
  match numeric_affinity p with
  | VInt k => Some k
  | _ => None
  end.

(** [WHERE <column> = ?] for a column of the given declared type: the
    column's affinity is applied to the placeholder, the stored value is
    compared as it is. *)
Definition col_eq (t : coltype) (stored p : value) : bool :=
  sql_eq stored (affinity t p).

Definition user_object (kr : Z * user_row) : object :=
  row_object users_table (Some kr.1) (user_values kr.2).
Definition transaction_object (kr : Z * transaction_row) : object :=
  row_object transactions_table (Some kr.1) (transaction_values kr.2).
Definition token_object (kr : Z * token_row) : object :=
  row_object resetTokens_table (Some kr.1) (token_values kr.2).

(** [FROM transactions t INNER JOIN user_transaction_mapping utm
     ON t.transactionid = utm.transactionid WHERE utm.userid = ?], returning
    [t.*]: one output row per mapping row of the user whose transaction
    exists.  SQL leaves the order of the result open; the model lists it in
    the order of the mapping rows. *)
Definition joined (d : store) (r : mapping_row) : option (Z * transaction_row) :=
  match m_transactionid r with
  | VInt k => (λ t, (k, t)) <$> transactions d !! k
  | _ => None
  end.

Definition select_transactions_of (d : store) (p : value) : list (Z * transaction_row) :=
  omap (joined d)
       (filter (λ r, col_eq INTEGER (m_userid r) p = true)
               (user_transaction_mapping d)).

Definition completed (d : store) (id n : Z) : string + store * reply :=
  inr (d, Reply id n []).

Definition found (d : store) (rs : list object) : string + store * reply :=
  inr (d, Reply 0 0 rs).

(** One statement against the store: the driver's error message, or the
    store after the statement and what the callback sees.  A statement that
    fails leaves the store as it was. *)
Definition exec (s : sql) (d : store) : string + store * reply :=
  match s with
  | SelectOne => found d [[("1", JNum 1)]]
  | SelectUsers => found d (user_object <$> map_to_list (users d))
  | InsertUser un pw em ts =>
      let r := UserRow (affinity TEXT un) (affinity TEXT pw) (affinity TEXT em)
                       (affinity TEXT ts) VNull in
      match check_not_null users_table (user_values r) with
      | Some e => inl e
      | None =>
          let id := next_rowid (users_seq d) (users d) in
          completed (Store (<[id := r]> (users d)) id
                      (transactions d) (transactions_seq d)
                      (user_transaction_mapping d)
                      (resetTokens d) (resetTokens_seq d)) id 1
      end
  | SelectResetTokens tk =>
      found d (token_object <$>
                 filter (λ kr, col_eq TEXT (token kr.2) tk = true)
                        (map_to_list (resetTokens d)))
  | InsertResetToken tk ex =>
      let r := TokenRow (affinity TEXT tk) (affinity TEXT ex) in
      match check_not_null resetTokens_table (token_values r) with
      | Some e => inl e
      | None =>
          let id := next_rowid (resetTokens_seq d) (resetTokens d) in
          completed (Store (users d) (users_seq d)
                      (transactions d) (transactions_seq d)
                      (user_transaction_mapping d)
                      (<[id := r]> (resetTokens d)) id) id 1
      end
  | UpdateResetTokenId tokenid uid =>
      match rowid_of uid ≫= λ k, (λ u, (k, u)) <$> users d !! k with
      | None => completed d 0 0
      | Some (k, u) =>
          let r := UserRow (username u) (password u) (email u) (u_timestamp u)
                           (affinity TEXT tokenid) in
          match check_column users_table "resetTokenId" (resetTokenId r) with
          | Some e => inl e
          | None =>
              completed (Store (<[k := r]> (users d)) (users_seq d)
                          (transactions d) (transactions_seq d)
                          (user_transaction_mapping d)
                          (resetTokens d) (resetTokens_seq d)) 0 1
          end
      end
  | UpdatePassword pw uid =>
      match rowid_of uid ≫= λ k, (λ u, (k, u)) <$> users d !! k with
      | None => completed d 0 0
      | Some (k, u) =>
          let r := UserRow (username u) (affinity TEXT pw) (email u)
                           (u_timestamp u) (resetTokenId u) in
          match check_column users_table "password" (password r) with
          | Some e => inl e
          | None =>
              completed (Store (<[k := r]> (users d)) (users_seq d)
                          (transactions d) (transactions_seq d)
                          (user_transaction_mapping d)
                          (resetTokens d) (resetTokens_seq d)) 0 1
          end
      end
  | InsertTransaction ie am ca de ts =>
      let r := TransactionRow (affinity BOOLEAN ie) (affinity INTEGER am)
                              (affinity INTEGER ca) (affinity TEXT de)
                              (affinity TEXT ts) in
      match check_not_null transactions_table (transaction_values r) with
      | Some e => inl e
      | None =>
          let id := next_rowid (transactions_seq d) (transactions d) in
          completed (Store (users d) (users_seq d)
                      (<[id := r]> (transactions d)) id
                      (user_transaction_mapping d)
                      (resetTokens d) (resetTokens_seq d)) id 1
      end
  | InsertMapping uid tid =>
      let r := MappingRow (affinity INTEGER uid) (affinity INTEGER tid) in
      match check_not_null user_transaction_mapping_table (mapping_values r) with
      | Some e => inl e
      | None =>
          completed (Store (users d) (users_seq d)
                      (transactions d) (transactions_seq d)
                      (user_transaction_mapping d ++ [r])
                      (resetTokens d) (resetTokens_seq d)) 0 1
      end
  | SelectTransactionsOf uid =>
      found d (transaction_object <$> select_transactions_of d uid)
  | DeleteTransaction tid =>
      match rowid_of tid ≫= λ k, (λ _, k) <$> transactions d !! k with
      | None => completed d 0 0
      | Some k =>
          completed (Store (users d) (users_seq d)
                      (delete k (transactions d)) (transactions_seq d)
                      (user_transaction_mapping d)
                      (resetTokens d) (resetTokens_seq d)) 0 1
      end
  | DeleteMapping tid =>
      let keep := filter (λ r, col_eq INTEGER (m_transactionid r) tid = false)
                         (user_transaction_mapping d) in
      completed (Store (users d) (users_seq d)
                  (transactions d) (transactions_seq d)
                  keep
                  (resetTokens d) (resetTokens_seq d))
           0 (Z.of_nat (List.length (user_transaction_mapping d) - List.length keep))
  end.

End Engine.

(** ** The driver: [db.run], [db.all], [db.get] *)

(** The handlers share one database handle.  Besides the store, the world of
    a handler holds what the environment does to the statements it is about
    to issue ([Some m]: the statement fails with message [m] whatever the
    store holds, as for a full disk or a locked file) and the statements
    issued so far, each with the error it ended in. *)
Record world := World {
  db : store;
  pending : list (option string);
  log : list (sql * option string)
}.

Definition M (A : Type) : Type := world → A * world.

#[global] Instance M_ret : MRet M := λ A x w, (x, w).
#[global] Instance M_bind : MBind M := λ A B f m w, let '(x, w') := m w in f x w'.

(** A JSON response: [res.status(n).json(o)]; [res.json(o)] alone answers
    with status 200. *)
Inductive body :=
| Obj (o : object)
| Arr (rs : list object).

Record response := Response {
  status : Z;
  payload : body
}.

(** The routes of the application with what each handler destructures from
    the request. *)
Inductive request :=
| GET_health
| GET_api_users
| POST_api_users (username password email : jsval)
| GET_api_resettoken (token : jsval)
| POST_api_resettoken (token expiresAt : jsval)
| PUT_api_users (userid tokenid : jsval)
| PUT_api_password (userid password : jsval)
| POST_api_transactions (userid isExpense amount categoryid description : jsval)
| GET_api_transactions (userId : string)
| DELETE_api_transactions (transactionid : string).

Section Server.

Context {conv : Conversions}.

(** Hands one statement to the engine and passes [(err, this)] to the
    callback: [inl m] is [err] with [err.message = m]. *)
Definition issue (s : sql) : M (string + reply) := λ w,
  let rest := tail (pending w) in
  match head (pending w) with
  | Some (Some m) => (inl m, World (db w) rest (log w ++ [(s, Some m)]))
  | _ =>
      match exec s (db w) with
      | inl m => (inl m, World (db w) rest (log w ++ [(s, Some m)]))
      | inr (d, r) => (inr r, World d rest (log w ++ [(s, None)]))
      end
  end.

Definition db_run : sql → M (string + reply) := issue.
Definition db_all : sql → M (string + reply) := issue.
Definition db_get : sql → M (string + reply) := issue.

(** [{ error: err.message }], the body of the [/api] routes on failure. *)
Definition error_json (m : string) : body := Obj [("error", JStr m)].

(** The body [GET /health] answers with when its query fails. *)
Definition health_failure : body :=
  Obj [("status", JStr "error"); ("message", JStr "Database connection failed")].

(** *** The handlers (server.js, lines 70-255) *)

Definition get_health (now : string) : M response :=
  r ← db_get SelectOne;
  match r with
  | inl _ => mret (Response 500 health_failure)
  | inr _ =>
      mret (Response 200 (Obj [("status", JStr "healthy");
                               ("timestamp", JStr now)]))
  end.

Definition get_users : M response :=
  r ← db_all SelectUsers;
  match r with
  | inl m => mret (Response 500 (error_json m))
  | inr this => mret (Response 200 (Arr (rows this)))
  end.

Definition post_users (now : string) (username password email : jsval) : M response :=
  let timestamp := JStr now in
  r ← db_run (InsertUser (bind_param username) (bind_param password)
                         (bind_param email) (bind_param timestamp));
  match r with
  | inl m => mret (Response 500 (error_json m))
  | inr this =>
      mret (Response 200 (Obj [("userid", JNum (lastID this));
                               ("username", username);
                               ("email", email);
                               ("timestamp", timestamp)]))
  end.

Definition get_resettoken (token : jsval) : M response :=
  r ← db_all (SelectResetTokens (bind_param token));
  match r with
  | inl m => mret (Response 500 (error_json m))
  | inr this => mret (Response 200 (Arr (rows this)))
  end.

Definition post_resettoken (token expiresAt : jsval) : M response :=
  r ← db_run (InsertResetToken (bind_param token) (bind_param expiresAt));
  match r with
  | inl m => mret (Response 500 (error_json m))
  | inr this =>
      mret (Response 200 (Obj [("id", JNum (lastID this));
                               ("token", token);
                               ("expiresAt", expiresAt)]))
  end.

Definition put_users (userid tokenid : jsval) : M response :=
  r ← db_run (UpdateResetTokenId (bind_param tokenid) (bind_param userid));
  match r with
  | inl m => mret (Response 500 (error_json m))
  | inr _ => mret (Response 200 (Obj [("userid", userid); ("tokenid", tokenid)]))
  end.

Definition put_password (userid password : jsval) : M response :=
  r ← db_run (UpdatePassword (bind_param password) (bind_param userid));
  match r with
  | inl m => mret (Response 500 (error_json m))
  | inr _ => mret (Response 200 (Obj [("userid", userid); ("password", password)]))
  end.

Definition post_transactions (now : string)
    (userid isExpense amount categoryid description : jsval) : M response :=
  let timestamp := JStr now in
  r ← db_run (InsertTransaction (bind_param isExpense) (bind_param amount)
                                (bind_param categoryid) (bind_param description)
                                (bind_param timestamp));
  match r with
  | inl m => mret (Response 500 (error_json m))
  | inr this =>
      let transactionid := JNum (lastID this) in
      r ← db_run (InsertMapping (bind_param userid) (bind_param transactionid));
      match r with
      | inl m => mret (Response 500 (error_json m))
      | inr _ =>
          mret (Response 200 (Obj [("transactionid", transactionid);
                                   ("userid", userid);
                                   ("isExpense", isExpense);
                                   ("amount", amount);
                                   ("categoryid", categoryid);
                                   ("description", description);
                                   ("timestamp", timestamp)]))
      end
  end.

Definition get_transactions (userId : string) : M response :=
  r ← db_all (SelectTransactionsOf (bind_param (JStr userId)));
  match r with
  | inl m => mret (Response 500 (error_json m))
  | inr this => mret (Response 200 (Arr (rows this)))
  end.

Definition delete_transactions (transactionid : string) : M response :=
  r ← db_run (DeleteTransaction (bind_param (JStr transactionid)));
  match r with
  | inl m => mret (Response 500 (error_json m))
  | inr this =>
      if bool_decide (changes this = 0)
      then mret (Response 404 (error_json "Transaction not found"))
      else
        r ← db_run (DeleteMapping (bind_param (JStr transactionid)));
        match r with
        | inl m => mret (Response 500 (error_json m))
        | inr _ =>
            mret (Response 200
                    (Obj [("message",
                           JStr ("Transaction " +:+ transactionid
                                 +:+ " deleted successfully"))]))
        end
  end.

(** Express routing: the handler registered for the request's verb and
    path.  [now] is what [new Date().toISOString()] returns during the
    request. *)
Definition handle (now : string) (q : request) : M response :=
  match q with
  | GET_health => get_health now
  | GET_api_users => get_users
  | POST_api_users un pw em => post_users now un pw em
  | GET_api_resettoken tk => get_resettoken tk
  | POST_api_resettoken tk ex => post_resettoken tk ex
  | PUT_api_users uid tokenid => put_users uid tokenid
  | PUT_api_password uid pw => put_password uid pw
  | POST_api_transactions uid ie am ca de => post_transactions now uid ie am ca de
  | GET_api_transactions uid => get_transactions uid
  | DELETE_api_transactions tid => delete_transactions tid
  end.

(** *** A server run *)

(** One request as the server meets it: the clock reading, the route, and
    the failures the environment has in store for its statements. *)
Record event := Event {
  ev_now : string;
  ev_request : request;
  ev_faults : list (option string)
}.

Definition serve (d : store) (e : event) : response * store :=
  let '(r, w) := handle (ev_now e) (ev_request e) (World d (ev_faults e) []) in
  (r, db w).

(** The requests are served one after the other, each to completion. *)
Fixpoint run (d : store) (es : list event) : list (event * response) * store :=
  match es with
  | [] => ([], d)
  | e :: es' =>
      let '(r, d') := serve d e in
      let '(tr, d'') := run d' es' in
      ((e, r) :: tr, d'')
  end.

End Server.

(** ** A concrete engine *)

(** The conversions on plain decimal numerals, where they agree with
    SQLite's: enough to run the handlers on concrete requests. *)
Definition digit (a : ascii) : option Z :=
  let n := Z.of_N (N_of_ascii a) - 48 in
  if (0 <=? n) && (n <=? 9) then Some n else None.

Fixpoint digits (acc : Z) (s : string) : option Z :=
  match s with
  | EmptyString => Some acc
  | String a s' => d ← digit a; digits (10 * acc + d) s'
  end.

Definition decimal (s : string) : option Z :=
  match s with
  | EmptyString => None
  | String "-"%char s' =>
      if bool_decide (s' = "") then None else Z.opp <$> digits 0 s'
  | _ => digits 0 s
  end.

Definition sqlite : Conversions := {| numeric := decimal; render := pretty |}.

(** A healthy world around a store: no failure pending, nothing issued. *)
Definition quiet (d : store) : world := World d [] [].

(** ** Invariants of the store *)

(** Every mapping row points at a transaction key that AUTOINCREMENT has
    already handed out. *)
Definition mapping_in_sequence (d : store) : Prop :=
  ∀ r k, r ∈ user_transaction_mapping d → m_transactionid r = VInt k →
         k ≤ transactions_seq d.

(** No row holds NULL where [t] says NOT NULL. *)
Definition respects (t : table) (vals : list value) : Prop :=
  check_not_null t vals = None.

Definition not_null_ok (d : store) : Prop :=
  (∀ k r, users d !! k = Some r → respects users_table (user_values r)) ∧
  (∀ k r, transactions d !! k = Some r →
          respects transactions_table (transaction_values r)) ∧
  (∀ r, r ∈ user_transaction_mapping d →
        respects user_transaction_mapping_table (mapping_values r)) ∧
  (∀ k r, resetTokens d !! k = Some r → respects resetTokens_table (token_values r)).

(** ** Reading a run *)

(** A field of the object a handler answered with. *)
Definition field (name : string) (r : response) : option jsval :=
  match payload r with
  | Obj o => snd <$> List.find (λ kv, bool_decide (kv.1 = name)) o
  | Arr _ => None
  end.

(** The key a successful create reports, per route. *)
Definition created_key (is_route : request → bool) (name : string)
    (er : event * response) : option Z :=
  if is_route (ev_request er.1) && bool_decide (status er.2 = 200)
  then match field name er.2 with Some (JNum k) => Some k | _ => None end
  else None.

Definition is_post_users (q : request) : bool :=
  match q with POST_api_users _ _ _ => true | _ => false end.
Definition is_post_transactions (q : request) : bool :=
  match q with POST_api_transactions _ _ _ _ _ => true | _ => false end.
Definition is_post_resettoken (q : request) : bool :=
  match q with POST_api_resettoken _ _ => true | _ => false end.

Definition userids_created (tr : list (event * response)) : list Z :=
  omap (created_key is_post_users "userid") tr.
Definition transactionids_created (tr : list (event * response)) : list Z :=
  omap (created_key is_post_transactions "transactionid") tr.
Definition tokenids_created (tr : list (event * response)) : list Z :=
  omap (created_key is_post_resettoken "id") tr.

(** The entries of a listing that carry a given transaction key. *)
Definition has_transactionid (k : Z) (o : object) : bool :=
  bool_decide (List.find (λ kv, bool_decide (kv.1 = "transactionid")) o
               = Some ("transactionid", JNum k)).

Definition listed (r : response) : list object :=
  match payload r with
  | Arr rs => rs
  | Obj _ => []
  end.

(** The statements a handler issued between two worlds. *)
Definition issued (w w' : world) : list (sql * option string) :=
  drop (List.length (log w)) (log w').

(** The environment lets the next statement through. *)
Definition healthy (w : world) : Prop :=
  ∀ m, head (pending w) ≠ Some (Some m).


Section Reading.

Context {conv : Conversions}.

(** A [:userId] of the path names the user a body's [userid] names when the
    two are the same value under the affinity of the [userid] column. *)
Definition names_user (userId : string) (userid : jsval) : Prop :=
  affinity INTEGER (VText userId) = affinity INTEGER (bind_param userid).


End Reading.

(** The environment fails none of the statements to come. *)
Definition fault_free (w : world) : Prop :=
  ∀ m, Some m ∉ pending w.

Section Typing.

Context {conv : Conversions}.

(** A value in the form a column of declared type [t] stores it: the
    affinity of [t] leaves it as it is.  A TEXT column holds no integer, an
    INTEGER or BOOLEAN column no text that reads as an integer. *)
Definition conforms (t : coltype) (v : value) : Prop :=
  affinity t v = v.

(** Every value of a row conforms to the declared type of its column. *)
Definition well_typed (t : table) (vals : list value) : Prop :=
  Forall2 (λ c v, conforms (col_type c) v) (data_cols t) vals.

Definition types_ok (d : store) : Prop :=
  (∀ k r, users d !! k = Some r → well_typed users_table (user_values r)) ∧
  (∀ k r, transactions d !! k = Some r →
          well_typed transactions_table (transaction_values r)) ∧
  (∀ r, r ∈ user_transaction_mapping d →
        well_typed user_transaction_mapping_table (mapping_values r)) ∧
  (∀ k r, resetTokens d !! k = Some r →
          well_typed resetTokens_table (token_values r)).

End Typing.


(** ** Sample requests and stores *)

(** One user, who then records one expense. *)
Definition noon : string := "2024-05-01T12:00:00.000Z".

Definition alice : user_row :=
  UserRow (VText "a") (VText "p") (VText "a@x.com") (VText noon) VNull.

Definition coffee : transaction_row :=
  TransactionRow (VInt 1) (VInt 500) (VInt 2) (VText "coffee") (VText noon).

Definition store_with_user : store :=
  Store {[1 := alice]} 1 ∅ 0 [] ∅ 0.

Definition store_with_transaction : store :=
  Store {[1 := alice]} 1 {[1 := coffee]} 1 [MappingRow (VInt 1) (VInt 1)] ∅ 0.

(** A store whose mapping table holds the pair (1, 1) twice, and a row of
    another user for the same transaction: the schema declares no uniqueness,
    although the handlers insert one mapping row per transaction. *)
Definition store_with_duplicate_mapping : store :=
  Store {[1 := alice]} 1 {[1 := coffee]} 1
        [MappingRow (VInt 1) (VInt 1); MappingRow (VInt 2) (VInt 1);
         MappingRow (VInt 1) (VInt 1)] ∅ 0.

Definition disk_full : string := "SQLITE_FULL: database or disk is full".

Definition post_coffee (userid description : jsval) : request :=
  POST_api_transactions userid (JBool true) (JNum 500) (JNum 2) description.

Definition post_alice : request :=
  POST_api_users (JStr "a") (JStr "p") (JStr "a@x.com").

(** ** The routes beside the composite protocols *)

(** The routes registered with [app.get]. *)
Definition is_get (q : request) : bool :=
  match q with
  | GET_health | GET_api_users | GET_api_resettoken _ | GET_api_transactions _ =>
      true
  | _ => false
  end.

(** The routes whose handler issues an INSERT, UPDATE or DELETE on each
    table. *)
Definition writes_users (q : request) : bool :=
  match q with
  | POST_api_users _ _ _ | PUT_api_users _ _ | PUT_api_password _ _ => true
  | _ => false
  end.

Definition writes_transactions (q : request) : bool :=
  match q with
  | POST_api_transactions _ _ _ _ _ | DELETE_api_transactions _ => true
  | _ => false
  end.

Definition writes_resetTokens (q : request) : bool :=
  match q with
  | POST_api_resettoken _ _ => true
  | _ => false
  end.

(** Every mapping row points at a transaction that exists. *)
Definition no_dangling (d : store) : Prop :=
  ∀ r, r ∈ user_transaction_mapping d →
       ∃ k, m_transactionid r = VInt k ∧ is_Some (transactions d !! k).

(** The environment fails no statement of the request. *)
Definition undisturbed (e : event) : Prop :=
  ∀ m, Some m ∉ ev_faults e.

(** The keys of a table lie within its sequence. *)
Definition users_in_sequence (d : store) : Prop :=
  0 ≤ users_seq d ∧ ∀ k u, users d !! k = Some u → k ≤ users_seq d.

Definition resetTokens_in_sequence (d : store) : Prop :=
  0 ≤ resetTokens_seq d ∧ ∀ k r, resetTokens d !! k = Some r → k ≤ resetTokens_seq d.

(** A reset token for the samples, and a store that holds it. *)
Definition reset_row : token_row :=
  TokenRow (VText "tok") (VText "2024-05-02T12:00:00.000Z").

Definition store_with_token : store :=
  Store {[1 := alice]} 1 ∅ 0 [] {[1 := reset_row]} 1.

Definition post_token : request :=
  POST_api_resettoken (JStr "tok") (JStr "2024-05-02T12:00:00.000Z").

(** ** Proof automation *)

(** Case analysis on the outcome of one statement. *)
Ltac exec_cases H :=
  unfold exec, completed, found in H;
  repeat match type of H with
         | context [match ?x with _ => _ end] => destruct x eqn:?
         end;
  simplify_eq/=.

(** Unfolds a handler down to its [issue] calls. *)
Ltac step_handler :=
  unfold post_transactions, delete_transactions, post_users, post_resettoken,
    put_users, put_password, get_transactions, get_users, get_resettoken,
    get_health, db_run, db_all, db_get, mbind, M_bind, mret, M_ret.

(** Membership in a list that is written out. *)
Ltac in_log :=
  repeat match goal with
         | H : _ ∈ [] |- _ => by apply elem_of_nil in H
         | H : _ ∈ _ :: _ |- _ => apply elem_of_cons in H as [H|H]; simplify_eq
         end.

(** * Properties *)

(** ** Keys *)

Lemma foldr_max_ge (l : list Z) (k : Z) : k ∈ l → k ≤ foldr Z.max 0 l.
Proof.
  induction l as [|x l IH]; intros Hk.
  - by apply elem_of_nil in Hk.
  - apply elem_of_cons in Hk as [->|Hk]; simpl; [lia|].
    specialize (IH Hk). lia.
Qed.

Lemma max_rowid_ge {A} (m : gmap Z A) (k : Z) (v : A) :
  m !! k = Some v → k ≤ max_rowid m.
Proof.
  intros Hk. apply foldr_max_ge.
  apply list_elem_of_In, in_map_iff. exists (k, v). split; [done|].
  by apply list_elem_of_In, elem_of_map_to_list.
Qed.

Lemma next_rowid_fresh {A} (seq : Z) (m : gmap Z A) :
  m !! next_rowid seq m = None.
Proof.
  destruct (m !! next_rowid seq m) as [v|] eqn:E; [|done].
  apply max_rowid_ge in E. unfold next_rowid in E. lia.
Qed.

Lemma next_rowid_gt {A} (seq : Z) (m : gmap Z A) : seq < next_rowid seq m.
Proof. unfold next_rowid. lia. Qed.

Section Properties.

Context {conv : Conversions}.

(** ** The driver *)

Lemma issue_err (s : sql) (w w1 : world) (m : string) :
  issue s w = (inl m, w1) →
  w1 = World (db w) (tail (pending w)) (log w ++ [(s, Some m)]).
Proof.
  unfold issue. intros H.
  destruct (head (pending w)) as [[m'|]|];
    [by inversion H| |];
    (destruct (exec s (db w)) as [m'|[d r]]; by inversion H).
Qed.

Lemma issue_ok (s : sql) (w w1 : world) (r : reply) :
  issue s w = (inr r, w1) →
  exec s (db w) = inr (db w1, r) ∧
  pending w1 = tail (pending w) ∧
  log w1 = log w ++ [(s, None)].
Proof.
  unfold issue. intros H.
  destruct (head (pending w)) as [[m'|]|];
    [by inversion H| |];
    (destruct (exec s (db w)) as [m'|[d r']]; inversion H; by subst).
Qed.

(** A healthy environment hands the statement to the engine. *)
Lemma issue_quiet (s : sql) (w : world) :
  (∀ m, head (pending w) ≠ Some (Some m)) →
  issue s w =
    match exec s (db w) with
    | inl m => (inl m, World (db w) (tail (pending w)) (log w ++ [(s, Some m)]))
    | inr (d, r) => (inr r, World d (tail (pending w)) (log w ++ [(s, None)]))
    end.
Proof.
  unfold issue. intros H.
  destruct (head (pending w)) as [[m'|]|]; [by destruct (H m')|done|done].
Qed.

(** A failure of the environment reaches the callback untouched. *)
Lemma issue_fault (s : sql) (w : world) (m : string) :
  head (pending w) = Some (Some m) →
  issue s w = (inl m, World (db w) (tail (pending w)) (log w ++ [(s, Some m)])).
Proof. unfold issue. by intros ->. Qed.

(** ** The engine *)

(** AUTOINCREMENT never moves a sequence backwards. *)
Lemma exec_seq_mono (s : sql) (d d' : store) (r : reply) :
  exec s d = inr (d', r) →
  users_seq d ≤ users_seq d' ∧
  transactions_seq d ≤ transactions_seq d' ∧
  resetTokens_seq d ≤ resetTokens_seq d'.
Proof.
  intros E. destruct s; exec_cases E;
    repeat split; try lia; apply Z.lt_le_incl, next_rowid_gt.
Qed.

Lemma exec_insert_transaction (ie am ca de ts : value) (d d' : store) (r : reply) :
  exec (InsertTransaction ie am ca de ts) d = inr (d', r) →
  let id := next_rowid (transactions_seq d) (transactions d) in
  let row := TransactionRow (affinity BOOLEAN ie) (affinity INTEGER am)
                            (affinity INTEGER ca) (affinity TEXT de)
                            (affinity TEXT ts) in
  lastID r = id ∧
  respects transactions_table (transaction_values row) ∧
  d' = Store (users d) (users_seq d) (<[id := row]> (transactions d)) id
             (user_transaction_mapping d) (resetTokens d) (resetTokens_seq d).
Proof. intros E. exec_cases E. done. Qed.

Lemma exec_insert_mapping (uid tid : value) (d d' : store) (r : reply) :
  exec (InsertMapping uid tid) d = inr (d', r) →
  let row := MappingRow (affinity INTEGER uid) (affinity INTEGER tid) in
  respects user_transaction_mapping_table (mapping_values row) ∧
  d' = Store (users d) (users_seq d) (transactions d) (transactions_seq d)
             (user_transaction_mapping d ++ [row])
             (resetTokens d) (resetTokens_seq d).
Proof. intros E. exec_cases E. done. Qed.

(** ** Creating a transaction *)

(** C1.  [POST /api/transactions] is two inserts.  When the insert into
    [transactions] fails, the handler answers 500 with that error, the store
    is what it was, and the insert is the only statement issued.  When it
    succeeds and the insert into [user_transaction_mapping] fails, the
    handler answers 500 with the second error while the new transaction row
    stays in the store and the mapping table is what it was; in a store
    whose mapping rows only point at keys already handed out, no mapping row
    points at the new transaction. *)
Theorem create_transaction_partial_failure
    (now : string) (userid isExpense amount categoryid description : jsval)
    (w : world) :
  let step1 := InsertTransaction (bind_param isExpense) (bind_param amount)
                 (bind_param categoryid) (bind_param description) (VText now) in
  let row := TransactionRow
               (affinity BOOLEAN (bind_param isExpense))
               (affinity INTEGER (bind_param amount))
               (affinity INTEGER (bind_param categoryid))
               (affinity TEXT (bind_param description)) (VText now) in
  let out := post_transactions now userid isExpense amount categoryid description w in
  (∀ m w1,
     issue step1 w = (inl m, w1) →
     out.1 = Response 500 (error_json m) ∧
     db out.2 = db w ∧
     log out.2 = log w ++ [(step1, Some m)]) ∧
  (∀ this w1 m w2,
     issue step1 w = (inr this, w1) →
     issue (InsertMapping (bind_param userid) (VInt (lastID this))) w1 = (inl m, w2) →
     let id := lastID this in
     out.1 = Response 500 (error_json m) ∧
     log out.2 = log w ++ [(step1, None);
                           (InsertMapping (bind_param userid) (VInt id), Some m)] ∧
     transactions (db w) !! id = None ∧
     transactions (db out.2) = <[id := row]> (transactions (db w)) ∧
     user_transaction_mapping (db out.2) = user_transaction_mapping (db w) ∧
     users (db out.2) = users (db w) ∧
     resetTokens (db out.2) = resetTokens (db w) ∧
     (mapping_in_sequence (db w) →
      ∀ r, r ∈ user_transaction_mapping (db out.2) → m_transactionid r ≠ VInt id)).
Proof.
  intros step1 row out. split.
  - intros m w1 E1. subst out. step_handler. simpl. fold step1. rewrite E1.
    apply issue_err in E1 as ->. done.
  - intros this w1 m w2 E1 E2 id. subst out. step_handler. simpl.
    fold step1. rewrite E1. simpl. rewrite E2. simpl.
    apply issue_err in E2 as ->.
    apply issue_ok in E1 as (E1 & _ & L1).
    apply exec_insert_transaction in E1 as (Hid & _ & Hd). simpl.
    rewrite L1, Hd, <- app_assoc. simpl. fold id in Hid.
    repeat split; try done.
    + rewrite Hid. apply next_rowid_fresh.
    + by rewrite Hid.
    + intros Hseq r Hr Hk. apply (Hseq r id Hr) in Hk.
      pose proof (next_rowid_gt (transactions_seq (db w)) (transactions (db w))).
      lia.
Qed.

(** ** Deleting a transaction *)

Lemma rowid_of_text (s : string) : rowid_of (VText s) = numeric s.
Proof. unfold rowid_of. simpl. by destruct (numeric s). Qed.

Lemma exec_delete_transaction (tid : string) (d d' : store) (r : reply) :
  exec (DeleteTransaction (VText tid)) d = inr (d', r) →
  (changes r = 0 ∧ d' = d ∧
   ∀ k, numeric tid = Some k → transactions d !! k = None) ∨
  (changes r = 1 ∧
   ∃ k, numeric tid = Some k ∧ is_Some (transactions d !! k) ∧
        d' = Store (users d) (users_seq d)
                   (delete k (transactions d)) (transactions_seq d)
                   (user_transaction_mapping d)
                   (resetTokens d) (resetTokens_seq d)).
Proof.
  unfold exec. rewrite rowid_of_text. intros E.
  destruct (numeric tid) as [k|] eqn:Ek; simpl in E.
  - destruct (transactions d !! k) as [t|] eqn:Et; simpl in E;
      unfold completed in E; simplify_eq/=.
    + right. split; [done|]. exists k. by rewrite Et.
    + left. repeat split; [done..|]. by intros ? [= <-].
  - unfold completed in E. simplify_eq/=. left. repeat split; done.
Qed.

Lemma exec_delete_mapping (tid : value) (d : store) :
  ∃ r, exec (DeleteMapping tid) d =
       inr (Store (users d) (users_seq d) (transactions d) (transactions_seq d)
              (filter (λ r, col_eq INTEGER (m_transactionid r) tid = false)
                      (user_transaction_mapping d))
              (resetTokens d) (resetTokens_seq d), r).
Proof. unfold exec, completed. eauto. Qed.

(** C2.  [DELETE /api/transactions/:transactionid] first deletes from
    [transactions].  When that statement touches no row the handler answers
    404, issues nothing more and leaves the whole store, the mapping table
    included, as it was.  The delete from [user_transaction_mapping] is
    issued only after a first delete that removed exactly one row, and when
    this second delete fails the handler answers 500 with its error although
    the transaction row is gone. *)
Theorem delete_transaction_protocol (transactionid : string) (w : world) :
  let step1 := DeleteTransaction (VText transactionid) in
  let step2 := DeleteMapping (VText transactionid) in
  let out := delete_transactions transactionid w in
  (∀ this w1,
     issue step1 w = (inr this, w1) → changes this = 0 →
     out.1 = Response 404 (error_json "Transaction not found") ∧
     db out.2 = db w ∧
     log out.2 = log w ++ [(step1, None)]) ∧
  (∀ l o,
     log out.2 = log w ++ l → (step2, o) ∈ l →
     ∃ this w1 k,
       issue step1 w = (inr this, w1) ∧ changes this = 1 ∧
       numeric transactionid = Some k ∧
       is_Some (transactions (db w) !! k) ∧
       transactions (db w1) = delete k (transactions (db w))) ∧
  (∀ this w1 m w2,
     issue step1 w = (inr this, w1) → changes this ≠ 0 →
     issue step2 w1 = (inl m, w2) →
     out.1 = Response 500 (error_json m) ∧
     log out.2 = log w ++ [(step1, None); (step2, Some m)] ∧
     ∃ k, numeric transactionid = Some k ∧
          is_Some (transactions (db w) !! k) ∧
          transactions (db out.2) = delete k (transactions (db w)) ∧
          user_transaction_mapping (db out.2) = user_transaction_mapping (db w)).
Proof.
  intros step1 step2 out. split; [|split].
  - intros this w1 E1 Hc. subst out. step_handler. simpl. fold step1.
    rewrite E1. rewrite bool_decide_true by done. simpl.
    apply issue_ok in E1 as (E1 & _ & L1).
    apply exec_delete_transaction in E1 as [(_ & Hd & _)|(Hc' & _)]; [|lia].
    by rewrite Hd, L1.
  - intros l o Hl Ho. subst out. revert Hl. step_handler. simpl.
    fold step1 step2.
    destruct (issue step1 w) as [[m|this] w1] eqn:E1.
    + apply issue_err in E1 as ->. simpl. intros Hl%app_inv_head. subst l.
      apply list_elem_of_singleton in Ho. discriminate.
    + case_bool_decide as Hc; simpl.
      * apply issue_ok in E1 as (_ & _ & L1). rewrite L1.
        intros Hl%app_inv_head. subst l.
        apply list_elem_of_singleton in Ho. discriminate.
      * intros _. exists this, w1.
        apply issue_ok in E1 as (E1 & _ & _).
        apply exec_delete_transaction in E1 as [(Hc' & _)|(Hc' & k & Hk & Hs & Hd)];
          [done|].
        exists k. rewrite Hd. done.
  - intros this w1 m w2 E1 Hc E2. subst out. step_handler. simpl.
    fold step1 step2. rewrite E1. rewrite bool_decide_false by done.
    rewrite E2. simpl. apply issue_err in E2 as ->. simpl.
    apply issue_ok in E1 as (E1 & _ & L1).
    apply exec_delete_transaction in E1 as [(Hc' & _)|(Hc' & k & Hk & Hs & Hd)];
      [done|].
    rewrite L1, <- app_assoc. repeat split; [done..|].
    exists k. rewrite Hd. done.
Qed.

(** ** Listing the transactions of a user *)

Lemma sql_eq_refl (v : value) : v ≠ VNull → sql_eq v v = true.
Proof. destruct v; simpl; intros; [done|by apply bool_decide_eq_true..]. Qed.

Lemma has_transactionid_object (k k' : Z) (t : transaction_row) :
  has_transactionid k (transaction_object (k', t)) = bool_decide (k' = k).
Proof.
  unfold has_transactionid, transaction_object, row_object. simpl.
  apply bool_decide_ext. split; [by intros [= ->]|by intros ->].
Qed.

Lemma joined_Some (d : store) (r : mapping_row) (k : Z) (t : transaction_row) :
  joined d r = Some (k, t) ↔
  m_transactionid r = VInt k ∧ transactions d !! k = Some t.
Proof.
  unfold joined. destruct (m_transactionid r) as [|k'|s]; simpl;
    [by split; [|intros []]| |by split; [|intros []]].
  destruct (transactions d !! k') as [t'|] eqn:E; simpl; split;
    intros; destruct_and?; simplify_eq; done.
Qed.

Lemma elem_of_select_transactions_of (d : store) (p : value) (k : Z)
    (t : transaction_row) :
  (k, t) ∈ select_transactions_of d p ↔
  transactions d !! k = Some t ∧
  ∃ r, r ∈ user_transaction_mapping d ∧
       col_eq INTEGER (m_userid r) p = true ∧ m_transactionid r = VInt k.
Proof.
  unfold select_transactions_of. rewrite list_elem_of_omap. split.
  - intros (r & [Hu Hr]%list_elem_of_filter & [Hk Ht]%joined_Some). eauto.
  - intros (Ht & r & Hr & Hu & Hk). exists r. split.
    + by apply list_elem_of_filter.
    + by apply joined_Some.
Qed.

(** What [GET /api/transactions/:userId] answers. *)
Lemma get_transactions_ok (userId : string) (w : world) :
  healthy w →
  (get_transactions userId w).1 =
    Response 200 (Arr (transaction_object <$>
                         select_transactions_of (db w) (VText userId))).
Proof.
  intros Hw. step_handler. simpl. by rewrite issue_quiet.
Qed.

Lemma get_transactions_listed (userId : string) (w : world) (o : object) :
  o ∈ listed (get_transactions userId w).1 →
  ∃ k t, o = transaction_object (k, t) ∧
         (k, t) ∈ select_transactions_of (db w) (VText userId).
Proof.
  step_handler. simpl. unfold issue.
  destruct (head (pending w)) as [[m|]|]; simpl;
    try (by intros ?%elem_of_nil);
    intros ([k t] & -> & Hin)%list_elem_of_fmap; eauto.
Qed.

Lemma fault_free_healthy (w : world) : fault_free w → healthy w.
Proof.
  intros Hw m Hm. apply (Hw m).
  destruct (pending w) as [|o l]; simplify_eq/=. apply list_elem_of_here.
Qed.

Lemma fault_free_tail (d : store) (w : world) (l : list (sql * option string)) :
  fault_free w → fault_free (World d (tail (pending w)) l).
Proof.
  intros Hw m Hm. apply (Hw m). simpl in Hm.
  destruct (pending w) as [|o ps]; simpl in *; [done|by apply list_elem_of_further].
Qed.

Lemma col_eq_integer_text (stored : value) (p : string) (k : Z) :
  numeric p = Some k →
  col_eq INTEGER stored (VText p) = bool_decide (stored = VInt k).
Proof.
  intros Hp. unfold col_eq. simpl. rewrite Hp.
  destruct stored as [|n|s]; simpl; [done| |done].
  apply bool_decide_ext. split; [by intros ->|by intros [= ->]].
Qed.

(** The two deletes of a [DELETE /api/transactions/:transactionid] that
    answers 200, and what they leave. *)
Lemma delete_transactions_ok (transactionid : string) (w : world) :
  status (delete_transactions transactionid w).1 = 200 →
  ∃ k, numeric transactionid = Some k ∧
       is_Some (transactions (db w) !! k) ∧
       db (delete_transactions transactionid w).2 =
         Store (users (db w)) (users_seq (db w))
               (delete k (transactions (db w))) (transactions_seq (db w))
               (filter (λ r, m_transactionid r ≠ VInt k)
                       (user_transaction_mapping (db w)))
               (resetTokens (db w)) (resetTokens_seq (db w)).
Proof.
  step_handler. simpl.
  destruct (issue (DeleteTransaction (VText transactionid)) w)
    as [[m|this] w1] eqn:E1; simpl; [done|].
  case_bool_decide as Hc; simpl; [done|].
  destruct (issue (DeleteMapping (VText transactionid)) w1)
    as [[m|r2] w2] eqn:E2; simpl; [done|]. intros _.
  apply issue_ok in E1 as (E1 & _ & _).
  apply exec_delete_transaction in E1 as [(Hc' & _)|(_ & k & Hk & Hs & Hd)];
    [done|].
  exists k. repeat split; [done..|].
  apply issue_ok in E2 as (E2 & _ & _).
  destruct (exec_delete_mapping (VText transactionid) (db w1)) as [r' E2'].
  rewrite E2' in E2. injection E2 as <- _. rewrite Hd. simpl. f_equal.
  apply list_filter_iff. intros r.
  rewrite (col_eq_integer_text _ _ k Hk). split.
  - by intros ?%bool_decide_eq_false.
  - by intros ?; apply bool_decide_eq_false.
Qed.

(** C3.  A [DELETE /api/transactions/:transactionid] that answers 200 has
    removed the transaction row the path names, which existed, and every
    mapping row that referred to it, and nothing else from the two tables;
    whoever then lists transactions, for whatever user, finds no entry with
    that key.  For a transaction that exists and an environment that fails no
    statement, the request does answer 200. *)
Theorem delete_transaction_removes (transactionid : string) (w : world) :
  let out := delete_transactions transactionid w in
  (status out.1 = 200 →
   ∃ k, numeric transactionid = Some k ∧
        is_Some (transactions (db w) !! k) ∧
        transactions (db out.2) = delete k (transactions (db w)) ∧
        transactions (db out.2) !! k = None ∧
        user_transaction_mapping (db out.2) =
          filter (λ r, m_transactionid r ≠ VInt k)
                 (user_transaction_mapping (db w)) ∧
        (∀ r, r ∈ user_transaction_mapping (db out.2) →
              m_transactionid r ≠ VInt k) ∧
        (∀ userId w' o,
           db w' = db out.2 →
           o ∈ listed (get_transactions userId w').1 →
           has_transactionid k o = false)) ∧
  (∀ k, numeric transactionid = Some k →
        is_Some (transactions (db w) !! k) →
        fault_free w →
        out.1 = Response 200
                  (Obj [("message",
                         JStr ("Transaction " +:+ transactionid
                               +:+ " deleted successfully"))])).
Proof.
  intros out. split.
  - intros Hok. destruct (delete_transactions_ok _ _ Hok) as (k & Hk & Hs & Hd).
    fold out in Hd. exists k. rewrite Hd. simpl.
    repeat split; [done..|apply lookup_delete_eq| |].
    + by intros r [? _]%list_elem_of_filter.
    + intros userId w' o Hw' Ho.
      apply get_transactions_listed in Ho as (k' & t & -> & Hin).
      rewrite has_transactionid_object. apply bool_decide_eq_false.
      intros ->. apply elem_of_select_transactions_of in Hin as [Ht _].
      rewrite Hw' in Ht. simpl in Ht. by rewrite lookup_delete_eq in Ht.
  - intros k Hk [t Ht] Hw. subst out. step_handler. simpl.
    rewrite issue_quiet by by apply fault_free_healthy.
    unfold exec at 1. rewrite rowid_of_text, Hk. simpl. rewrite Ht. simpl.
    rewrite issue_quiet by by apply fault_free_healthy, fault_free_tail.
    unfold exec, completed. simpl. done.
Qed.




(** ** Reading a created transaction back *)

Lemma respects_mapping (a b : value) :
  respects user_transaction_mapping_table [a; b] ↔ a ≠ VNull ∧ b ≠ VNull.
Proof.
  unfold respects, check_not_null.
  destruct a, b; simpl; split; try done; intros [? ?]; done.
Qed.

(** The two inserts of a [POST /api/transactions] that answers 200, and what
    they leave. *)
Lemma post_transactions_ok (now : string)
    (userid isExpense amount categoryid description : jsval) (w : world) :
  let out := post_transactions now userid isExpense amount categoryid description w in
  let id := next_rowid (transactions_seq (db w)) (transactions (db w)) in
  let row := TransactionRow
               (affinity BOOLEAN (bind_param isExpense))
               (affinity INTEGER (bind_param amount))
               (affinity INTEGER (bind_param categoryid))
               (affinity TEXT (bind_param description)) (VText now) in
  status out.1 = 200 →
  out.1 = Response 200 (Obj [("transactionid", JNum id); ("userid", userid);
                             ("isExpense", isExpense); ("amount", amount);
                             ("categoryid", categoryid);
                             ("description", description);
                             ("timestamp", JStr now)]) ∧
  affinity INTEGER (bind_param userid) ≠ VNull ∧
  respects transactions_table (transaction_values row) ∧
  db out.2 =
    Store (users (db w)) (users_seq (db w))
          (<[id := row]> (transactions (db w))) id
          (user_transaction_mapping (db w)
             ++ [MappingRow (affinity INTEGER (bind_param userid)) (VInt id)])
          (resetTokens (db w)) (resetTokens_seq (db w)).
Proof.
  intros out id row. subst out. step_handler. simpl.
  match goal with |- context [issue ?s w] =>
    destruct (issue s w) as [[m|this] w1] eqn:E1 end; simpl; [done|].
  match goal with |- context [issue ?s w1] =>
    destruct (issue s w1) as [[m|r2] w2] eqn:E2 end; simpl; [done|].
  intros _.
  apply issue_ok in E1 as (E1 & _ & _).
  apply exec_insert_transaction in E1 as (Hid & Hrow & Hd). fold id in Hid, Hd.
  apply issue_ok in E2 as (E2 & _ & _).
  apply exec_insert_mapping in E2 as (Hm & Hd2).
  apply respects_mapping in Hm as [Hu _].
  rewrite Hd2, Hd, Hid. done.
Qed.

Lemma names_user_str (s : string) : names_user s (JStr s).
Proof. done. Qed.

Lemma names_user_num (s : string) (n : Z) :
  numeric s = Some n → names_user s (JNum n).
Proof. unfold names_user. simpl. by intros ->. Qed.

(** C4.  After a [POST /api/transactions] that answered 200, a
    [GET /api/transactions/:userId] on the store it left, for a path that
    names the user of the body, answers 200 with a listing that contains the
    new transaction: the row under the key the create reported. *)
Theorem read_your_writes (now : string)
    (userid isExpense amount categoryid description : jsval) (w : world)
    (userId : string) (w' : world) :
  let out := post_transactions now userid isExpense amount categoryid description w in
  let row := TransactionRow
               (affinity BOOLEAN (bind_param isExpense))
               (affinity INTEGER (bind_param amount))
               (affinity INTEGER (bind_param categoryid))
               (affinity TEXT (bind_param description)) (VText now) in
  status out.1 = 200 →
  names_user userId userid →
  db w' = db out.2 →
  healthy w' →
  ∃ id, field "transactionid" out.1 = Some (JNum id) ∧
        transactions (db w) !! id = None ∧
        let listing := (get_transactions userId w').1 in
        status listing = 200 ∧
        transaction_object (id, row) ∈ listed listing ∧
        has_transactionid id (transaction_object (id, row)) = true.
Proof.
  intros out row Hok Hname Hw' Hh.
  destruct (post_transactions_ok now userid isExpense amount categoryid
              description w Hok) as (Hr & Hu & _ & Hd).
  fold out in Hr, Hd. fold row in Hd.
  exists (next_rowid (transactions_seq (db w)) (transactions (db w))).
  rewrite Hr. split; [done|]. split; [apply next_rowid_fresh|].
  rewrite get_transactions_ok by done. simpl. split; [done|]. split.
  - apply list_elem_of_fmap_2, elem_of_select_transactions_of.
    rewrite Hw', Hd. simpl. split; [apply lookup_insert_eq|].
    eexists. split; [apply elem_of_app; right; apply list_elem_of_here|].
    simpl. split; [|done].
    unfold col_eq. unfold names_user in Hname. rewrite Hname.
    by apply sql_eq_refl.
  - rewrite has_transactionid_object. by apply bool_decide_eq_true.
Qed.

(** ** Creating a user *)

Lemma exec_insert_user (un pw em ts : value) (d d' : store) (r : reply) :
  exec (InsertUser un pw em ts) d = inr (d', r) →
  let id := next_rowid (users_seq d) (users d) in
  let row := UserRow (affinity TEXT un) (affinity TEXT pw) (affinity TEXT em)
                     (affinity TEXT ts) VNull in
  lastID r = id ∧
  respects users_table (user_values row) ∧
  d' = Store (<[id := row]> (users d)) id (transactions d) (transactions_seq d)
             (user_transaction_mapping d) (resetTokens d) (resetTokens_seq d).
Proof. intros E. exec_cases E. done. Qed.

(** The insert of a [POST /api/users] that answers 200, and what it
    leaves. *)
Lemma post_users_ok (now : string) (username password email : jsval) (w : world) :
  let out := post_users now username password email w in
  let id := next_rowid (users_seq (db w)) (users (db w)) in
  status out.1 = 200 →
  out.1 = Response 200 (Obj [("userid", JNum id); ("username", username);
                             ("email", email); ("timestamp", JStr now)]) ∧
  db out.2 =
    Store (<[id := UserRow (affinity TEXT (bind_param username))
                           (affinity TEXT (bind_param password))
                           (affinity TEXT (bind_param email))
                           (VText now) VNull]> (users (db w))) id
          (transactions (db w)) (transactions_seq (db w))
          (user_transaction_mapping (db w))
          (resetTokens (db w)) (resetTokens_seq (db w)).
Proof.
  intros out id. subst out. step_handler. simpl.
  match goal with |- context [issue ?s w] =>
    destruct (issue s w) as [[m|this] w1] eqn:E1 end; simpl; [done|].
  intros _. apply issue_ok in E1 as (E1 & _ & _).
  apply exec_insert_user in E1 as (Hid & _ & Hd). fold id in Hid, Hd.
  by rewrite Hd, Hid.
Qed.

Lemma exec_insert_reset_token (tk ex : value) (d d' : store) (r : reply) :
  exec (InsertResetToken tk ex) d = inr (d', r) →
  let id := next_rowid (resetTokens_seq d) (resetTokens d) in
  lastID r = id ∧
  d' = Store (users d) (users_seq d) (transactions d) (transactions_seq d)
             (user_transaction_mapping d)
             (<[id := TokenRow (affinity TEXT tk) (affinity TEXT ex)]>
                (resetTokens d)) id.
Proof. intros E. exec_cases E. done. Qed.

Lemma post_resettoken_ok (token expiresAt : jsval) (w : world) :
  let out := post_resettoken token expiresAt w in
  let id := next_rowid (resetTokens_seq (db w)) (resetTokens (db w)) in
  status out.1 = 200 →
  out.1 = Response 200 (Obj [("id", JNum id); ("token", token);
                             ("expiresAt", expiresAt)]) ∧
  resetTokens_seq (db out.2) = id.
Proof.
  intros out id. subst out. step_handler. simpl.
  match goal with |- context [issue ?s w] =>
    destruct (issue s w) as [[m|this] w1] eqn:E1 end; simpl; [done|].
  intros _. apply issue_ok in E1 as (E1 & _ & _).
  apply exec_insert_reset_token in E1 as (Hid & Hd). fold id in Hid, Hd.
  by rewrite Hd, Hid.
Qed.

(** C5, as the handler has it.  A [POST /api/users] that answers 200 has
    stamped the row with the clock reading, stored it under a key that was
    not in use, the password included, and answers with that key, the
    [username] and [email] of the body and the stamp.  The answer has no
    [password] field. *)
Theorem create_user_response (now : string) (username password email : jsval)
    (w : world) :
  let out := post_users now username password email w in
  let id := next_rowid (users_seq (db w)) (users (db w)) in
  let row := UserRow (affinity TEXT (bind_param username))
                     (affinity TEXT (bind_param password))
                     (affinity TEXT (bind_param email))
                     (VText now) VNull in
  status out.1 = 200 →
  out.1 = Response 200 (Obj [("userid", JNum id); ("username", username);
                             ("email", email); ("timestamp", JStr now)]) ∧
  field "password" out.1 = None ∧
  users (db w) !! id = None ∧
  users (db out.2) = <[id := row]> (users (db w)) ∧
  users_seq (db out.2) = id ∧
  transactions (db out.2) = transactions (db w) ∧
  user_transaction_mapping (db out.2) = user_transaction_mapping (db w) ∧
  resetTokens (db out.2) = resetTokens (db w).
Proof.
  intros out id row Hok.
  destruct (post_users_ok now username password email w Hok) as [Hr Hd].
  fold out in Hr, Hd. rewrite Hr, Hd. simpl. repeat split.
  apply next_rowid_fresh.
Qed.

(** ** The two updates *)

Lemma exec_update_reset_token (tokenid uid : value) (d : store) :
  ∃ d' r, exec (UpdateResetTokenId tokenid uid) d = inr (d', r) ∧
          ((∀ k, rowid_of uid = Some k → users d !! k = None) → d' = d).
Proof.
  unfold exec, completed.
  destruct (rowid_of uid) as [k|] eqn:Ek; simpl.
  - destruct (users d !! k) as [u|] eqn:Eu; simpl.
    + eexists _, _. split; [done|]. intros Hn. specialize (Hn k eq_refl).
      congruence.
    + eauto.
  - eauto.
Qed.

Lemma exec_update_password (pw uid : value) (d : store) :
  pw ≠ VNull ∨ (∀ k, rowid_of uid = Some k → users d !! k = None) →
  ∃ d' r, exec (UpdatePassword pw uid) d = inr (d', r) ∧
          ((∀ k, rowid_of uid = Some k → users d !! k = None) → d' = d).
Proof.
  unfold exec, completed. intros Hc.
  destruct (rowid_of uid) as [k|] eqn:Ek; simpl.
  - destruct (users d !! k) as [u|] eqn:Eu; simpl.
    + destruct Hc as [Hp|Hn]; [|specialize (Hn k eq_refl); congruence].
      destruct pw; [done|..]; simpl; eexists _, _;
        (split; [done|]); intros Hn; specialize (Hn k eq_refl); congruence.
    + eauto.
  - eauto.
Qed.

(** The two updates when the environment lets them through. *)
Lemma updates_let_through (userid x : jsval) (w : world) :
  let no_such_user :=
    ∀ k, rowid_of (bind_param userid) = Some k → users (db w) !! k = None in
  (healthy w →
   (put_users userid x w).1 =
     Response 200 (Obj [("userid", userid); ("tokenid", x)])) ∧
  (healthy w → bind_param x ≠ VNull ∨ no_such_user →
   (put_password userid x w).1 =
     Response 200 (Obj [("userid", userid); ("password", x)])) ∧
  (healthy w → no_such_user →
   db (put_users userid x w).2 = db w ∧ db (put_password userid x w).2 = db w) ∧
  (status (put_users userid x w).1 = 200 ∨ status (put_users userid x w).1 = 500) ∧
  (status (put_password userid x w).1 = 200 ∨
   status (put_password userid x w).1 = 500).
Proof.
  intros no_such_user. repeat split.
  - intros Hw. step_handler. simpl. rewrite issue_quiet by done.
    destruct (exec_update_reset_token (bind_param x) (bind_param userid) (db w))
      as (d' & r & -> & _). done.
  - intros Hw Hc. step_handler. simpl. rewrite issue_quiet by done.
    destruct (exec_update_password (bind_param x) (bind_param userid) (db w) Hc)
      as (d' & r & -> & _). done.
  - step_handler. simpl. rewrite issue_quiet by done.
    destruct (exec_update_reset_token (bind_param x) (bind_param userid) (db w))
      as (d' & r & -> & Hd). simpl. auto.
  - step_handler. simpl. rewrite issue_quiet by done.
    destruct (exec_update_password (bind_param x) (bind_param userid) (db w))
      as (d' & r & -> & Hd); [by right|]. simpl. auto.
  - step_handler. simpl.
    match goal with |- context [issue ?s w] =>
      destruct (issue s w) as [[m|this] w1] end; simpl; auto.
  - step_handler. simpl.
    match goal with |- context [issue ?s w] =>
      destruct (issue s w) as [[m|this] w1] end; simpl; auto.
Qed.

(** A null password for a user who exists fails in the store. *)
Lemma exec_update_password_null (pw uid : value) (k : Z) (u : user_row) (d : store) :
  rowid_of uid = Some k → users d !! k = Some u → pw = VNull →
  exec (UpdatePassword pw uid) d =
    inl "SQLITE_CONSTRAINT: NOT NULL constraint failed: users.password".
Proof.
  intros Hk Hu ->. unfold exec. rewrite Hk. simpl. rewrite Hu. done.
Qed.

(** What the two handlers make of the outcome of their UPDATE. *)
Lemma updates_follow_statement (userid x : jsval) (w : world) :
  (∀ m w1,
     issue (UpdateResetTokenId (bind_param x) (bind_param userid)) w = (inl m, w1) →
     (put_users userid x w).1 = Response 500 (error_json m) ∧
     db (put_users userid x w).2 = db w) ∧
  (∀ this w1,
     issue (UpdateResetTokenId (bind_param x) (bind_param userid)) w = (inr this, w1) →
     (put_users userid x w).1 =
       Response 200 (Obj [("userid", userid); ("tokenid", x)])) ∧
  (∀ m w1,
     issue (UpdatePassword (bind_param x) (bind_param userid)) w = (inl m, w1) →
     (put_password userid x w).1 = Response 500 (error_json m) ∧
     db (put_password userid x w).2 = db w) ∧
  (∀ this w1,
     issue (UpdatePassword (bind_param x) (bind_param userid)) w = (inr this, w1) →
     (put_password userid x w).1 =
       Response 200 (Obj [("userid", userid); ("password", x)])).
Proof.
  split; [|split; [|split]].
  - intros m w1 E. step_handler. simpl. rewrite E. simpl.
    by apply issue_err in E as ->.
  - intros this w1 E. step_handler. simpl. by rewrite E.
  - intros m w1 E. step_handler. simpl. rewrite E. simpl.
    by apply issue_err in E as ->.
  - intros this w1 E. step_handler. simpl. by rewrite E.
Qed.

(** C6, as the handlers have it.  Neither handler looks at the number of
    rows changed: each answers 200 with the pair of the body exactly when
    its UPDATE does not fail, and 500 with the error of the UPDATE when it
    does, leaving the store as it was; neither ever answers anything else.
    In a healthy environment the UPDATE of [PUT /api/users] never fails,
    whatever the pair and whether or not a user matches, and the UPDATE of
    [PUT /api/password] fails in exactly one case: a password that is null
    for a user who exists, which the NOT NULL constraint of [users.password]
    rejects.  When no user matches, the store is left as it was. *)
Theorem blind_updates (userid x : jsval) (w : world) :
  let no_such_user :=
    ∀ k, rowid_of (bind_param userid) = Some k → users (db w) !! k = None in
  (healthy w →
   (put_users userid x w).1 =
     Response 200 (Obj [("userid", userid); ("tokenid", x)])) ∧
  (healthy w → bind_param x ≠ VNull ∨ no_such_user →
   (put_password userid x w).1 =
     Response 200 (Obj [("userid", userid); ("password", x)])) ∧
  (healthy w → no_such_user →
   db (put_users userid x w).2 = db w ∧ db (put_password userid x w).2 = db w) ∧
  (status (put_users userid x w).1 = 200 ∨ status (put_users userid x w).1 = 500) ∧
  (status (put_password userid x w).1 = 200 ∨
   status (put_password userid x w).1 = 500) ∧
  (healthy w →
   ∀ k u, rowid_of (bind_param userid) = Some k → users (db w) !! k = Some u →
          bind_param x = VNull →
          (put_password userid x w).1 =
            Response 500 (error_json
              "SQLITE_CONSTRAINT: NOT NULL constraint failed: users.password") ∧
          db (put_password userid x w).2 = db w) ∧
  (healthy w →
   (status (put_password userid x w).1 = 200 ↔
    bind_param x ≠ VNull ∨ no_such_user)) ∧
  (∀ m w1,
     issue (UpdateResetTokenId (bind_param x) (bind_param userid)) w = (inl m, w1) →
     (put_users userid x w).1 = Response 500 (error_json m) ∧
     db (put_users userid x w).2 = db w) ∧
  (∀ this w1,
     issue (UpdateResetTokenId (bind_param x) (bind_param userid)) w = (inr this, w1) →
     (put_users userid x w).1 =
       Response 200 (Obj [("userid", userid); ("tokenid", x)])) ∧
  (∀ m w1,
     issue (UpdatePassword (bind_param x) (bind_param userid)) w = (inl m, w1) →
     (put_password userid x w).1 = Response 500 (error_json m) ∧
     db (put_password userid x w).2 = db w) ∧
  (∀ this w1,
     issue (UpdatePassword (bind_param x) (bind_param userid)) w = (inr this, w1) →
     (put_password userid x w).1 =
       Response 200 (Obj [("userid", userid); ("password", x)])).
Proof.
  intros no_such_user.
  destruct (updates_let_through userid x w) as (A & B & C & D & E).
  destruct (updates_follow_statement userid x w) as (F & G & H & I).
  assert (Hnull : healthy w →
            ∀ k u, rowid_of (bind_param userid) = Some k →
                   users (db w) !! k = Some u → bind_param x = VNull →
                   (put_password userid x w).1 =
                     Response 500 (error_json
                       "SQLITE_CONSTRAINT: NOT NULL constraint failed: users.password") ∧
                   db (put_password userid x w).2 = db w).
  { intros Hw k u Hk Hu Hx. apply H with
      (w1 := World (db w) (tail (pending w))
               (log w ++ [(UpdatePassword (bind_param x) (bind_param userid),
                           Some "SQLITE_CONSTRAINT: NOT NULL constraint failed: users.password")])).
    rewrite issue_quiet by done.
    by rewrite (exec_update_password_null _ _ k u). }
  do 5 (split; [done|]). split; [exact Hnull|]. split; [|done].
  intros Hw. split.
  - intros Hok.
    destruct (decide (bind_param x = VNull)) as [Hx|Hx]; [|by left].
    right. intros k Hk.
    destruct (users (db w) !! k) as [u|] eqn:Hu; [|done].
    destruct (Hnull Hw k u Hk Hu Hx) as [Hr _]. rewrite Hr in Hok. done.
  - intros Hc. by rewrite (B Hw Hc).
Qed.

(** ** Errors at the HTTP boundary *)

Lemma issued_app (w w' : world) (l : list (sql * option string)) :
  log w' = log w ++ l → issued w w' = l.
Proof. unfold issued. intros ->. apply drop_app_length. Qed.

(** Splits on the next [issue] of the goal. *)
Ltac next_issue :=
  match goal with
  | |- context [issue ?s ?w] =>
      let E := fresh "E" in
      let L := fresh "L" in
      destruct (issue s w) as [[?m|?this] ?w1] eqn:E;
      [apply issue_err in E; subst
      |apply issue_ok in E as (E & _ & L)]; simpl
  end.

(** What a handler issued and answered, case by case. *)
Lemma handle_outcome (now : string) (q : request) (w : world) :
  let out := handle now q w in
  (∃ s, issued w out.2 = [(s, None)] ∧ status out.1 = 200) ∨
  (∃ s m, issued w out.2 = [(s, Some m)] ∧ status out.1 = 500 ∧
          payload out.1 = match q with
                          | GET_health => health_failure
                          | _ => error_json m
                          end) ∨
  (∃ tid this w1,
     q = DELETE_api_transactions tid ∧
     issue (DeleteTransaction (VText tid)) w = (inr this, w1) ∧
     changes this = 0 ∧
     issued w out.2 = [(DeleteTransaction (VText tid), None)] ∧
     out.1 = Response 404 (error_json "Transaction not found")) ∨
  (∃ s1 s2, issued w out.2 = [(s1, None); (s2, None)] ∧ status out.1 = 200) ∨
  (∃ s1 s2 m, issued w out.2 = [(s1, None); (s2, Some m)] ∧
              q ≠ GET_health ∧
              out.1 = Response 500 (error_json m)).
Proof.
  destruct q; simpl; step_handler; simpl.
  all: try (next_issue;
            [right; left; eexists _, _; split; [by apply issued_app|done]
            |left; eexists _; split; [by apply issued_app|done]]).
  - next_issue.
    { right; left; eexists _, _; split; [by apply issued_app|done]. }
    next_issue.
    + do 4 right. eexists _, _, _. split; [|done].
      apply issued_app. simpl. by rewrite L, <- app_assoc.
    + do 3 right. left. eexists _, _. split; [|done].
      apply issued_app. simpl. by rewrite L0, L, <- app_assoc.
  - destruct (issue (DeleteTransaction (VText transactionid)) w)
      as [[m|this] w1] eqn:E1; simpl.
    { apply issue_err in E1 as ->.
      right; left; eexists _, _; split; [by apply issued_app|done]. }
    case_bool_decide as Hc; simpl.
    + do 2 right. left. exists transactionid, this, w1.
      apply issue_ok in E1 as Hok. destruct Hok as (_ & _ & L).
      do 3 (split; [done|]). split; [by apply issued_app|done].
    + apply issue_ok in E1 as (_ & _ & L). next_issue.
      * do 4 right. eexists _, _, _. split; [|done].
        apply issued_app. simpl. by rewrite L, <- app_assoc.
      * do 3 right. left. eexists _, _. split; [|done].
        apply issued_app. simpl. by rewrite L0, L, <- app_assoc.
Qed.

(** C9, as the handlers have it.  Whenever a statement of a handler fails,
    the answer has status 500, and on every [/api] route its body is
    [{ error: m }] with [m] the message of the failed statement, letter for
    letter; [GET /health] answers 500 as well but with a fixed body of its
    own that does not carry the message.  A 500 is answered only after a
    failed statement.  A delete that touched no row is answered with 404 and
    [{ error: "Transaction not found" }], and nothing else ever is. *)
Theorem errors_at_the_boundary (now : string) (q : request) (w : world) :
  let out := handle now q w in
  (∀ s m, (s, Some m) ∈ issued w out.2 →
          status out.1 = 500 ∧
          payload out.1 = match q with
                          | GET_health => health_failure
                          | _ => error_json m
                          end) ∧
  (status out.1 = 500 → ∃ s m, (s, Some m) ∈ issued w out.2) ∧
  (∀ tid this w1,
     q = DELETE_api_transactions tid →
     issue (DeleteTransaction (VText tid)) w = (inr this, w1) →
     changes this = 0 →
     out.1 = Response 404 (error_json "Transaction not found")) ∧
  (status out.1 = 404 →
   ∃ tid this w1,
     q = DELETE_api_transactions tid ∧
     issue (DeleteTransaction (VText tid)) w = (inr this, w1) ∧
     changes this = 0) ∧
  (status out.1 = 200 ∨ status out.1 = 404 ∨ status out.1 = 500).
Proof.
  intros out. pose proof (handle_outcome now q w) as Ho. fold out in Ho.
  split; [|split; [|split; [|split]]].
  - intros s m Hin.
    destruct Ho as [(s1 & Hl & _)|[(s1 & m1 & Hl & Hs & Hp)|
                   [(tid & this & w1 & _ & _ & _ & Hl & _)|
                   [(s1 & s2 & Hl & _)|(s1 & s2 & m1 & Hl & Hq & Hr)]]]];
      rewrite Hl in Hin; in_log.
    + done.
    + rewrite Hr. simpl. by destruct q.
  - intros H500.
    destruct Ho as [(s1 & Hl & Hs)|[(s1 & m1 & Hl & Hs & Hp)|
                   [(tid & this & w1 & _ & _ & _ & Hl & Hr)|
                   [(s1 & s2 & Hl & Hs)|(s1 & s2 & m1 & Hl & Hq & Hr)]]]].
    + congruence.
    + exists s1, m1. rewrite Hl. apply list_elem_of_here.
    + rewrite Hr in H500. done.
    + congruence.
    + exists s2, m1. rewrite Hl. apply list_elem_of_further, list_elem_of_here.
  - intros tid this w1 -> E Hc. subst out. simpl. step_handler. simpl.
    rewrite E. by rewrite bool_decide_true.
  - intros H404.
    destruct Ho as [(s1 & Hl & Hs)|[(s1 & m1 & Hl & Hs & Hp)|
                   [(tid & this & w1 & Hq & E & Hc & _)|
                   [(s1 & s2 & Hl & Hs)|(s1 & s2 & m1 & Hl & Hq & Hr)]]]];
      try congruence.
    + by exists tid, this, w1.
    + rewrite Hr in H404. done.
  - destruct Ho as [(s1 & Hl & Hs)|[(s1 & m1 & Hl & Hs & Hp)|
                   [(tid & this & w1 & _ & _ & _ & _ & Hr)|
                   [(s1 & s2 & Hl & Hs)|(s1 & s2 & m1 & Hl & Hq & Hr)]]]];
      try rewrite Hr; simpl; auto.
Qed.

(** ** Every handler, statement by statement *)

Lemma issue_steps (R : store → store → Prop) (s : sql) (w : world) :
  (∀ d, R d d) →
  (∀ s d d' r, exec s d = inr (d', r) → R d d') →
  R (db w) (db (issue s w).2).
Proof.
  intros Hrefl Hexec.
  destruct (issue s w) as [[m|r] w1] eqn:E; simpl.
  - apply issue_err in E as ->. apply Hrefl.
  - apply issue_ok in E as (E & _). by eapply Hexec.
Qed.

(** A relation between stores that every statement respects is respected by
    every handler. *)
Lemma handle_steps (R : store → store → Prop) (now : string) (q : request)
    (w : world) :
  (∀ d, R d d) →
  (∀ a b c, R a b → R b c → R a c) →
  (∀ s d d' r, exec s d = inr (d', r) → R d d') →
  R (db w) (db (handle now q w).2).
Proof.
  intros Hrefl Htrans Hexec.
  assert (Hi : ∀ s w, R (db w) (db (issue s w).2))
    by (intros; by apply issue_steps).
  destruct q as [| |un pw em|tk|tk ex|uid tokenid|uid pw|uid ie am ca de|uid|tid];
    simpl; step_handler; simpl.
  all: try (match goal with |- context [issue ?s ?w0] =>
              specialize (Hi s w0); destruct (issue s w0) as [[?|?] ?] end;
            by simpl in *).
  - pose proof (Hi (InsertTransaction (bind_param ie) (bind_param am)
                      (bind_param ca) (bind_param de) (VText now)) w) as H1.
    destruct (issue _ w) as [[m|this] w1]; simpl in *; [done|].
    pose proof (Hi (InsertMapping (bind_param uid) (VInt (lastID this))) w1)
      as H2.
    destruct (issue _ w1) as [[m|r2] w2]; simpl in *; by eapply Htrans.
  - pose proof (Hi (DeleteTransaction (VText tid)) w) as H1.
    destruct (issue _ w) as [[m|this] w1]; simpl in *; [done|].
    case_bool_decide; simpl; [done|].
    pose proof (Hi (DeleteMapping (VText tid)) w1) as H2.
    destruct (issue _ w1) as [[m|r2] w2]; simpl in *; by eapply Htrans.
Qed.

Lemma run_steps (R : store → store → Prop) (d : store) (es : list event) :
  (∀ d, R d d) →
  (∀ a b c, R a b → R b c → R a c) →
  (∀ s d d' r, exec s d = inr (d', r) → R d d') →
  R d (run d es).2.
Proof.
  intros Hrefl Htrans Hexec. revert d.
  induction es as [|e es IH]; intros d; simpl; [done|].
  unfold serve.
  pose proof (handle_steps R (ev_now e) (ev_request e)
                (World d (ev_faults e) []) Hrefl Htrans Hexec) as H1.
  destruct (handle _ _ _) as [r w1]. simpl in H1.
  specialize (IH (db w1)). destruct (run (db w1) es) as [tr d2]. simpl in *.
  by eapply Htrans.
Qed.

(** ** Nullability *)

Lemma respects_users (r : user_row) :
  respects users_table (user_values r) ↔
  username r ≠ VNull ∧ password r ≠ VNull ∧ email r ≠ VNull ∧ u_timestamp r ≠ VNull.
Proof.
  unfold respects, check_not_null. destruct r as [a b c d e].
  destruct a, b, c, d; simpl; split; try done; intros (? & ? & ? & ?); done.
Qed.

Lemma respects_transactions (r : transaction_row) :
  respects transactions_table (transaction_values r) ↔
  isExpense r ≠ VNull ∧ amount r ≠ VNull ∧ categoryid r ≠ VNull ∧
  t_timestamp r ≠ VNull.
Proof.
  unfold respects, check_not_null. destruct r as [a b c d e].
  destruct a, b, c, e; simpl; split; try done; intros (? & ? & ? & ?); done.
Qed.

Lemma respects_tokens (r : token_row) :
  respects resetTokens_table (token_values r) ↔
  token r ≠ VNull ∧ expiresAt r ≠ VNull.
Proof.
  unfold respects, check_not_null. destruct r as [a b].
  destruct a, b; simpl; split; try done; intros (? & ?); done.
Qed.

Lemma check_column_password (v : value) :
  check_column users_table "password" v = None → v ≠ VNull.
Proof. by destruct v. Qed.

Lemma exec_not_null (s : sql) (d d' : store) (r : reply) :
  exec s d = inr (d', r) → not_null_ok d → not_null_ok d'.
Proof.
  intros E (Hu & Ht & Hm & Hk).
  destruct s; exec_cases E; try done.
  all: repeat split; simpl; try done.
  - intros k r. rewrite lookup_insert. case_decide; [|by eauto].
    by intros [= <-].
  - intros k r. rewrite lookup_insert. case_decide; [|by eauto].
    by intros [= <-].
  - intros k r. rewrite lookup_insert. case_decide; [|by eauto].
    intros [= <-].
    match goal with H : _ ≫= _ = Some _ |- _ =>
      apply bind_Some in H as (k' & _ & (u' & Hl & [= <- <-])%fmap_Some) end.
    apply Hu, respects_users in Hl. apply respects_users. simpl. done.
  - intros k r. rewrite lookup_insert. case_decide; [|by eauto].
    intros [= <-].
    match goal with H : _ ≫= _ = Some _ |- _ =>
      apply bind_Some in H as (k' & _ & (u' & Hl & [= <- <-])%fmap_Some) end.
    apply Hu, respects_users in Hl as (? & ? & ? & ?).
    apply respects_users. simpl. repeat split; try done.
    by apply check_column_password.
  - intros k r. rewrite lookup_insert. case_decide; [|by eauto].
    by intros [= <-].
  - intros r [Hr|Hr%list_elem_of_singleton]%elem_of_app; [by eauto|by subst].
  - intros k r [_ ?]%lookup_delete_Some. by eauto.
  - intros r [_ Hr]%list_elem_of_filter. by eauto.
Qed.

(** *** Declared types *)

Lemma affinity_idem (t : coltype) (v : value) : conforms t (affinity t v).
Proof.
  unfold conforms.
  destruct t, v as [|n|s]; simpl; try done;
    destruct (numeric s) eqn:E; simpl; by rewrite ?E.
Qed.

Lemma conforms_null (t : coltype) : conforms t VNull.
Proof. by destruct t. Qed.

(** What conforming means on the values of the model. *)
Lemma conforms_text (v : value) : conforms TEXT v ↔ ∀ n, v ≠ VInt n.
Proof.
  unfold conforms. destruct v as [|n|s]; simpl; split; try done.
  intros H. by destruct (H n).
Qed.

Lemma conforms_integer (t : coltype) (v : value) :
  t ≠ TEXT → conforms t v ↔ ∀ s, v = VText s → numeric s = None.
Proof.
  intros Ht. unfold conforms.
  assert (E : affinity t v = numeric_affinity v) by (by destruct t).
  rewrite E. destruct v as [|n|s]; simpl; split; try done.
  - intros H s' [= <-]. by destruct (numeric s).
  - intros H. by rewrite (H s eq_refl).
Qed.

Lemma well_typed_users (r : user_row) :
  well_typed users_table (user_values r) ↔
  conforms TEXT (username r) ∧ conforms TEXT (password r) ∧
  conforms TEXT (email r) ∧ conforms TEXT (u_timestamp r) ∧
  conforms TEXT (resetTokenId r).
Proof.
  unfold well_typed, user_values.
  let l := eval vm_compute in (data_cols users_table) in
    change (data_cols users_table) with l.
  rewrite !Forall2_cons, Forall2_nil. simpl. by intuition.
Qed.

Lemma well_typed_transactions (r : transaction_row) :
  well_typed transactions_table (transaction_values r) ↔
  conforms BOOLEAN (isExpense r) ∧ conforms INTEGER (amount r) ∧
  conforms INTEGER (categoryid r) ∧ conforms TEXT (description r) ∧
  conforms TEXT (t_timestamp r).
Proof.
  unfold well_typed, transaction_values.
  let l := eval vm_compute in (data_cols transactions_table) in
    change (data_cols transactions_table) with l.
  rewrite !Forall2_cons, Forall2_nil. simpl. by intuition.
Qed.

Lemma well_typed_mapping (r : mapping_row) :
  well_typed user_transaction_mapping_table (mapping_values r) ↔
  conforms INTEGER (m_userid r) ∧ conforms INTEGER (m_transactionid r).
Proof.
  unfold well_typed, mapping_values.
  let l := eval vm_compute in (data_cols user_transaction_mapping_table) in
    change (data_cols user_transaction_mapping_table) with l.
  rewrite !Forall2_cons, Forall2_nil. simpl. by intuition.
Qed.

Lemma well_typed_tokens (r : token_row) :
  well_typed resetTokens_table (token_values r) ↔
  conforms TEXT (token r) ∧ conforms TEXT (expiresAt r).
Proof.
  unfold well_typed, token_values.
  let l := eval vm_compute in (data_cols resetTokens_table) in
    change (data_cols resetTokens_table) with l.
  rewrite !Forall2_cons, Forall2_nil. simpl. by intuition.
Qed.

(** Every statement stores its values under the affinity of their column. *)
Lemma exec_types_ok (s : sql) (d d' : store) (r : reply) :
  exec s d = inr (d', r) → types_ok d → types_ok d'.
Proof.
  intros E (Hu & Ht & Hm & Hk).
  destruct s; exec_cases E; try done.
  all: repeat split; simpl; try done.
  - intros k0 r0. rewrite lookup_insert. case_decide; [|by eauto].
    intros [= <-]. apply well_typed_users. simpl.
    repeat split; apply (affinity_idem TEXT) || apply conforms_null.
  - intros k0 r0. rewrite lookup_insert. case_decide; [|by eauto].
    intros [= <-]. apply well_typed_tokens. simpl.
    split; apply (affinity_idem TEXT).
  - intros k0 r0. rewrite lookup_insert. case_decide; [|by eauto].
    intros [= <-].
    match goal with H : _ ≫= _ = Some _ |- _ =>
      apply bind_Some in H as (k' & _ & (u1 & Hl & Heq)%fmap_Some) end.
    simplify_eq. apply Hu, well_typed_users in Hl as (? & ? & ? & ? & ?).
    apply well_typed_users. simpl.
    repeat split; try done. apply (affinity_idem TEXT).
  - intros k0 r0. rewrite lookup_insert. case_decide; [|by eauto].
    intros [= <-].
    match goal with H : _ ≫= _ = Some _ |- _ =>
      apply bind_Some in H as (k' & _ & (u1 & Hl & Heq)%fmap_Some) end.
    simplify_eq. apply Hu, well_typed_users in Hl as (? & ? & ? & ? & ?).
    apply well_typed_users. simpl.
    repeat split; try done. apply (affinity_idem TEXT).
  - intros k0 r0. rewrite lookup_insert. case_decide; [|by eauto].
    intros [= <-]. apply well_typed_transactions. simpl.
    repeat split;
      first [apply (affinity_idem BOOLEAN)|apply (affinity_idem INTEGER)
            |apply (affinity_idem TEXT)].
  - intros r0 [Hr|Hr%list_elem_of_singleton]%elem_of_app; [by eauto|].
    subst r0. apply well_typed_mapping. simpl.
    split; apply (affinity_idem INTEGER).
  - intros k0 r0 [_ ?]%lookup_delete_Some. by eauto.
  - intros r0 [_ Hr]%list_elem_of_filter. by eauto.
Qed.

Lemma empty_store_types_ok : types_ok empty_store.
Proof.
  repeat split; intros *; simpl;
    try (by rewrite lookup_empty); by intros ?%elem_of_nil.
Qed.

(** C8, as the schema has it.  The store has the four tables with the
    columns and declared types listed, and two of the columns may hold NULL:
    [users.resetTokenId] and [transactions.description].  Every other column
    is NOT NULL or the integer primary key, and no run of the server, from a
    store that respects this, leaves a NULL in any of them.  Nor does a run
    leave a value in a column in another form than the declared type of the
    column gives it: the TEXT columns hold no integer, and the INTEGER and
    BOOLEAN columns hold no text that reads as an integer. *)
Theorem nullability (d : store) (es : list event) :
  map (λ t, (tbl_name t, map col_name (tbl_cols t))) schema =
    [ ("users", ["userid"; "username"; "password"; "email"; "timestamp";
                 "resetTokenId"]);
      ("transactions", ["transactionid"; "isExpense"; "amount"; "categoryid";
                        "description"; "timestamp"]);
      ("user_transaction_mapping", ["userid"; "transactionid"]);
      ("resetTokens", ["id"; "token"; "expiresAt"]) ] ∧
  List.concat (map nullable_columns schema) =
    [("users", "resetTokenId"); ("transactions", "description")] ∧
  (not_null_ok d →
   let d' := (run d es).2 in
   (∀ k r, users d' !! k = Some r →
           username r ≠ VNull ∧ password r ≠ VNull ∧ email r ≠ VNull ∧
           u_timestamp r ≠ VNull) ∧
   (∀ k r, transactions d' !! k = Some r →
           isExpense r ≠ VNull ∧ amount r ≠ VNull ∧ categoryid r ≠ VNull ∧
           t_timestamp r ≠ VNull) ∧
   (∀ r, r ∈ user_transaction_mapping d' →
         m_userid r ≠ VNull ∧ m_transactionid r ≠ VNull) ∧
   (∀ k r, resetTokens d' !! k = Some r →
           token r ≠ VNull ∧ expiresAt r ≠ VNull)) ∧
  map (λ t, (tbl_name t,
             map (λ c, (col_name c, col_type c, col_pk c)) (tbl_cols t))) schema =
    [ ("users", [("userid", INTEGER, true); ("username", TEXT, false);
                 ("password", TEXT, false); ("email", TEXT, false);
                 ("timestamp", TEXT, false); ("resetTokenId", TEXT, false)]);
      ("transactions", [("transactionid", INTEGER, true);
                        ("isExpense", BOOLEAN, false); ("amount", INTEGER, false);
                        ("categoryid", INTEGER, false);
                        ("description", TEXT, false); ("timestamp", TEXT, false)]);
      ("user_transaction_mapping", [("userid", INTEGER, false);
                                    ("transactionid", INTEGER, false)]);
      ("resetTokens", [("id", INTEGER, true); ("token", TEXT, false);
                       ("expiresAt", TEXT, false)]) ] ∧
  (types_ok d →
   let d' := (run d es).2 in
   (∀ k r, users d' !! k = Some r →
           conforms TEXT (username r) ∧ conforms TEXT (password r) ∧
           conforms TEXT (email r) ∧ conforms TEXT (u_timestamp r) ∧
           conforms TEXT (resetTokenId r)) ∧
   (∀ k r, transactions d' !! k = Some r →
           conforms BOOLEAN (isExpense r) ∧ conforms INTEGER (amount r) ∧
           conforms INTEGER (categoryid r) ∧ conforms TEXT (description r) ∧
           conforms TEXT (t_timestamp r)) ∧
   (∀ r, r ∈ user_transaction_mapping d' →
         conforms INTEGER (m_userid r) ∧ conforms INTEGER (m_transactionid r)) ∧
   (∀ k r, resetTokens d' !! k = Some r →
           conforms TEXT (token r) ∧ conforms TEXT (expiresAt r))).
Proof.
  split; [done|]. split; [done|]. split; [|split; [done|]].
  - intros Hd d'.
    assert (Hd' : not_null_ok d').
    { revert Hd. apply (run_steps (λ a b, not_null_ok a → not_null_ok b));
        [done|by auto|]. apply exec_not_null. }
    destruct Hd' as (Hu & Ht & Hm & Hk). split; [|split; [|split]].
    + intros k r Hr. by apply Hu, respects_users in Hr.
    + intros k r Hr. by apply Ht, respects_transactions in Hr.
    + intros [a b] Hr. by apply Hm, respects_mapping in Hr.
    + intros k r Hr. by apply Hk, respects_tokens in Hr.
  - intros Hd d'.
    assert (Hd' : types_ok d').
    { revert Hd. apply (run_steps (λ a b, types_ok a → types_ok b));
        [done|by auto|]. apply exec_types_ok. }
    destruct Hd' as (Hu & Ht & Hm & Hk). split; [|split; [|split]].
    + intros k r Hr. by apply Hu, well_typed_users in Hr.
    + intros k r Hr. by apply Ht, well_typed_transactions in Hr.
    + intros r Hr. by apply Hm, well_typed_mapping in Hr.
    + intros k r Hr. by apply Hk, well_typed_tokens in Hr.
Qed.

(** ** Keys are handed out in increasing order *)

















(** ** Mapping rows follow the transaction sequence *)

Lemma exec_mapping_in_sequence (s : sql) (d d' : store) (r : reply) :
  exec s d = inr (d', r) →
  (∀ u t k, s = InsertMapping u t → affinity INTEGER t = VInt k →
            k ≤ transactions_seq d) →
  mapping_in_sequence d → mapping_in_sequence d'.
Proof.
  intros E Hs Hd. unfold mapping_in_sequence in *.
  destruct s; exec_cases E; try done; simpl.
  - intros r k Hr Hk. specialize (Hd r k Hr Hk).
    pose proof (next_rowid_gt (transactions_seq d) (transactions d)). lia.
  - intros r k [Hr|Hr%list_elem_of_singleton]%elem_of_app Hk; [by eauto|].
    subst r. simpl in Hk. by eapply Hs.
  - intros r k [_ Hr]%list_elem_of_filter Hk. by eauto.
Qed.

Lemma issue_mapping_in_sequence (s : sql) (w : world) :
  (∀ u t k, s = InsertMapping u t → affinity INTEGER t = VInt k →
            k ≤ transactions_seq (db w)) →
  mapping_in_sequence (db w) → mapping_in_sequence (db (issue s w).2).
Proof.
  intros Hs Hd. destruct (issue s w) as [[m|r] w1] eqn:E; simpl.
  - by apply issue_err in E as ->.
  - apply issue_ok in E as (E & _). by eapply exec_mapping_in_sequence.
Qed.

Lemma handle_mapping_in_sequence (now : string) (q : request) (w : world) :
  mapping_in_sequence (db w) → mapping_in_sequence (db (handle now q w).2).
Proof.
  intros Hd.
  destruct q as [| |un pw em|tk|tk ex|uid tokenid|uid pw|uid ie am ca de|uid|tid];
    simpl; step_handler; simpl.
  all: try (match goal with |- context [issue ?s ?w0] =>
              pose proof (issue_mapping_in_sequence s w0) as Hi;
              destruct (issue s w0) as [[?|?] ?] end;
            by simpl in *; apply Hi).
  - pose proof (issue_mapping_in_sequence
                  (InsertTransaction (bind_param ie) (bind_param am)
                     (bind_param ca) (bind_param de) (VText now)) w) as H1.
    destruct (issue _ w) as [[m|this] w1] eqn:E1; simpl in *; [by apply H1|].
    apply issue_ok in E1 as (E1 & _).
    apply exec_insert_transaction in E1 as (Hid & _ & Hd1).
    pose proof (issue_mapping_in_sequence
                  (InsertMapping (bind_param uid) (VInt (lastID this))) w1) as H2.
    assert (mapping_in_sequence (db w1)) by by apply H1.
    destruct (issue _ w1) as [[m|r2] w2]; simpl in *; apply H2; try done.
    all: intros u t k [= <- <-] [= <-]; rewrite Hd1, Hid; simpl; lia.
  - pose proof (issue_mapping_in_sequence (DeleteTransaction (VText tid)) w) as H1.
    destruct (issue _ w) as [[m|this] w1]; simpl in *; [by apply H1|].
    assert (mapping_in_sequence (db w1)) by by apply H1.
    case_bool_decide; simpl; [done|].
    pose proof (issue_mapping_in_sequence (DeleteMapping (VText tid)) w1) as H2.
    destruct (issue _ w1) as [[m|r2] w2]; simpl in *; by apply H2.
Qed.

(** The stores the server reaches from a new file all have the property. *)
Lemma run_mapping_in_sequence (d : store) (es : list event) :
  mapping_in_sequence d → mapping_in_sequence (run d es).2.
Proof.
  revert d. induction es as [|e es IH]; intros d Hd; simpl; [done|].
  unfold serve.
  pose proof (handle_mapping_in_sequence (ev_now e) (ev_request e)
                (World d (ev_faults e) []) Hd) as H1.
  destruct (handle _ _ _) as [r w1]. simpl in H1.
  specialize (IH (db w1) H1). by destruct (run (db w1) es) as [tr d2].
Qed.

Lemma empty_store_mapping_in_sequence : mapping_in_sequence empty_store.
Proof. intros r k Hr. by apply elem_of_nil in Hr. Qed.

Lemma empty_store_not_null_ok : not_null_ok empty_store.
Proof.
  repeat split; intros *; simpl;
    try (by rewrite lookup_empty); by intros ?%elem_of_nil.
Qed.

End Properties.

(** * The handlers at work *)

(** The properties above, instantiated on the decimal conversions and
    concrete requests. *)

Example scenario :
  (run (conv := sqlite) empty_store
     [ Event noon post_alice [];
       Event noon (post_coffee (JNum 1) (JStr "coffee")) [];
       Event noon (GET_api_transactions "1") [];
       Event noon (DELETE_api_transactions "1") [];
       Event noon (DELETE_api_transactions "1") [] ]).1.*2 =
  [ Response 200 (Obj [("userid", JNum 1); ("username", JStr "a");
                       ("email", JStr "a@x.com"); ("timestamp", JStr noon)]);
    Response 200 (Obj [("transactionid", JNum 1); ("userid", JNum 1);
                       ("isExpense", JBool true); ("amount", JNum 500);
                       ("categoryid", JNum 2); ("description", JStr "coffee");
                       ("timestamp", JStr noon)]);
    Response 200 (Arr [[("transactionid", JNum 1); ("isExpense", JNum 1);
                        ("amount", JNum 500); ("categoryid", JNum 2);
                        ("description", JStr "coffee");
                        ("timestamp", JStr noon)]]);
    Response 200 (Obj [("message", JStr "Transaction 1 deleted successfully")]);
    Response 404 (Obj [("error", JStr "Transaction not found")]) ].
Proof. vm_compute. reflexivity. Qed.

Example store_after_first_steps :
  (run (conv := sqlite) empty_store
     [ Event noon post_alice [];
       Event noon (post_coffee (JNum 1) (JStr "coffee")) [] ]).2
  = store_with_transaction.
Proof. vm_compute. reflexivity. Qed.

(** C1 at work.  With a full disk the first insert fails and nothing is
    stored; with a null [userid] in the body the second insert fails on NOT NULL
    and the transaction stays behind without a mapping row. *)
Lemma create_transaction_partial_failure_witness :
  (let w := World store_with_user [Some disk_full] [] in
   let out := post_transactions (conv := sqlite) noon (JNum 1) (JBool true)
                (JNum 500) (JNum 2) (JStr "coffee") w in
   out.1 = Response 500 (error_json disk_full) ∧ db out.2 = store_with_user) ∧
  (let w := quiet store_with_user in
   let out := post_transactions (conv := sqlite) noon JNull (JBool true)
                (JNum 500) (JNum 2) (JStr "coffee") w in
   out.1 = Response 500 (error_json
             "SQLITE_CONSTRAINT: NOT NULL constraint failed: user_transaction_mapping.userid") ∧
   transactions (db out.2) = <[1 := coffee]> ∅ ∧
   user_transaction_mapping (db out.2) = [] ∧
   ∀ r, r ∈ user_transaction_mapping (db out.2) → m_transactionid r ≠ VInt 1).
Proof.
  split.
  - intros w out.
    destruct (create_transaction_partial_failure (conv := sqlite) noon (JNum 1)
                (JBool true) (JNum 500) (JNum 2) (JStr "coffee") w) as [A _].
    destruct (A disk_full (World store_with_user []
                [(InsertTransaction (VInt 1) (VInt 500) (VInt 2) (VText "coffee")
                    (VText noon), Some disk_full)]) eq_refl) as (Hr & Hd & _).
    split; [exact Hr|exact Hd].
  - intros w out.
    destruct (create_transaction_partial_failure (conv := sqlite) noon JNull
                (JBool true) (JNum 500) (JNum 2) (JStr "coffee") w) as [_ B].
    destruct (B (Reply 1 1 [])
                (World (Store {[1 := alice]} 1 (<[1 := coffee]> ∅) 1 [] ∅ 0) []
                   [(InsertTransaction (VInt 1) (VInt 500) (VInt 2)
                       (VText "coffee") (VText noon), None)])
                "SQLITE_CONSTRAINT: NOT NULL constraint failed: user_transaction_mapping.userid"
                (World (Store {[1 := alice]} 1 (<[1 := coffee]> ∅) 1 [] ∅ 0) []
                   [(InsertTransaction (VInt 1) (VInt 500) (VInt 2)
                       (VText "coffee") (VText noon), None);
                    (InsertMapping VNull (VInt 1),
                     Some "SQLITE_CONSTRAINT: NOT NULL constraint failed: user_transaction_mapping.userid")])
                eq_refl eq_refl)
      as (Hr & _ & _ & Ht & Hm & _ & _ & Hno).
    split; [exact Hr|]. split; [exact Ht|]. split; [exact Hm|].
    apply Hno. intros r k Hr'. simpl in Hr'. by apply elem_of_nil in Hr'.
Defined.

(** C2 at work.  Deleting a transaction that is not there answers 404 and
    leaves the store alone; with the disk filling up between the two deletes,
    the transaction is gone and its mapping row is still there. *)
Lemma delete_transaction_protocol_witness :
  (let out := delete_transactions (conv := sqlite) "7" (quiet store_with_transaction) in
   out.1 = Response 404 (error_json "Transaction not found") ∧
   db out.2 = store_with_transaction) ∧
  (let w := World store_with_transaction [None; Some disk_full] [] in
   let out := delete_transactions (conv := sqlite) "1" w in
   out.1 = Response 500 (error_json disk_full) ∧
   ∃ k, decimal "1" = Some k ∧
        transactions (db out.2) = delete k {[1 := coffee]} ∧
        user_transaction_mapping (db out.2) = [MappingRow (VInt 1) (VInt 1)]).
Proof.
  split.
  - intros out.
    destruct (delete_transaction_protocol (conv := sqlite) "7"
                (quiet store_with_transaction)) as (A & _ & _).
    destruct (A (Reply 0 0 [])
                (World store_with_transaction []
                   [(DeleteTransaction (VText "7"), None)])
                eq_refl eq_refl) as (Hr & Hd & _).
    split; [exact Hr|exact Hd].
  - intros w out.
    destruct (delete_transaction_protocol (conv := sqlite) "1" w) as (_ & _ & C).
    destruct (C (Reply 0 1 [])
                (World (Store {[1 := alice]} 1 (delete 1 {[1 := coffee]}) 1
                          [MappingRow (VInt 1) (VInt 1)] ∅ 0)
                   [Some disk_full]
                   [(DeleteTransaction (VText "1"), None)])
                disk_full
                (World (Store {[1 := alice]} 1 (delete 1 {[1 := coffee]}) 1
                          [MappingRow (VInt 1) (VInt 1)] ∅ 0)
                   []
                   [(DeleteTransaction (VText "1"), None);
                    (DeleteMapping (VText "1"), Some disk_full)])
                eq_refl ltac:(discriminate) eq_refl)
      as (Hr & _ & k & Hk & _ & Ht & Hm).
    split; [exact Hr|]. exists k. split; [exact Hk|]. split; [exact Ht|exact Hm].
Defined.

(** C3 at work.  Deleting the one transaction of the store empties both
    tables, and the owner's listing with them. *)
Lemma delete_transaction_removes_witness :
  let out := delete_transactions (conv := sqlite) "1" (quiet store_with_transaction) in
  status out.1 = 200 ∧
  ∃ k, decimal "1" = Some k ∧
       transactions (db out.2) !! k = None ∧
       user_transaction_mapping (db out.2) =
         filter (λ r, m_transactionid r ≠ VInt k) [MappingRow (VInt 1) (VInt 1)] ∧
       listed (get_transactions (conv := sqlite) "1" (quiet (db out.2))).1 = [].
Proof.
  intros out.
  destruct (delete_transaction_removes (conv := sqlite) "1"
              (quiet store_with_transaction)) as [A _].
  split; [reflexivity|].
  destruct (A eq_refl) as (k & Hk & _ & _ & Hgone & Hm & _ & _).
  exists k. split; [exact Hk|]. split; [exact Hgone|]. split; [exact Hm|].
  reflexivity.
Defined.

(** C4 at work.  User 1 records a coffee and finds it in the listing of
    [/api/transactions/1]. *)
Lemma read_your_writes_witness :
  let out := post_transactions (conv := sqlite) noon (JNum 1) (JBool true)
               (JNum 500) (JNum 2) (JStr "coffee") (quiet store_with_user) in
  status out.1 = 200 ∧
  names_user (conv := sqlite) "1" (JNum 1) ∧
  healthy (quiet (db out.2)) ∧
  ∃ id, field "transactionid" out.1 = Some (JNum id) ∧
        transaction_object (id, coffee)
          ∈ listed (get_transactions (conv := sqlite) "1" (quiet (db out.2))).1.
Proof.
  intros out.
  assert (Hn : names_user (conv := sqlite) "1" (JNum 1)) by reflexivity.
  assert (Hh : healthy (quiet (db out.2))) by (intros m; discriminate).
  split; [reflexivity|]. split; [exact Hn|]. split; [exact Hh|].
  destruct (read_your_writes (conv := sqlite) noon (JNum 1) (JBool true)
              (JNum 500) (JNum 2) (JStr "coffee") (quiet store_with_user)
              "1" (quiet (db out.2)) eq_refl Hn eq_refl Hh)
    as (id & Hid & _ & _ & Hin & _).
  exists id. split; [exact Hid|exact Hin].
Defined.

(** C5 at work.  The first user of a new store gets key 1. *)
Lemma create_user_response_witness :
  let out := post_users (conv := sqlite) noon (JStr "a") (JStr "p")
               (JStr "a@x.com") (quiet empty_store) in
  status out.1 = 200 ∧
  out.1 = Response 200 (Obj [("userid", JNum 1); ("username", JStr "a");
                             ("email", JStr "a@x.com"); ("timestamp", JStr noon)]) ∧
  users (db out.2) = <[1 := alice]> ∅.
Proof.
  intros out.
  destruct (create_user_response (conv := sqlite) noon (JStr "a") (JStr "p")
              (JStr "a@x.com") (quiet empty_store) eq_refl)
    as (Hr & _ & _ & Hu & _).
  split; [reflexivity|]. split; [exact Hr|exact Hu].
Defined.

(** The claim C5 as the specification words it fails: the answer to a
    successful [POST /api/users] does not give the password back. *)
Lemma create_user_omits_password :
  let out := post_users (conv := sqlite) noon (JStr "a") (JStr "p")
               (JStr "a@x.com") (quiet empty_store) in
  status out.1 = 200 ∧ field "password" out.1 ≠ Some (JStr "p").
Proof. split; [reflexivity|discriminate]. Qed.

(** C6 at work.  There is no user 7: both updates answer 200 with the pair
    they were given and change nothing.  User 1 exists: a null password for
    that user is turned down and the store stays as it was. *)
Lemma blind_updates_witness :
  let w := quiet store_with_user in
  healthy w ∧
  (∀ k, rowid_of (conv := sqlite) (bind_param (JNum 7)) = Some k →
        users (db w) !! k = None) ∧
  (put_users (conv := sqlite) (JNum 7) (JStr "x") w).1 =
    Response 200 (Obj [("userid", JNum 7); ("tokenid", JStr "x")]) ∧
  (put_password (conv := sqlite) (JNum 7) (JStr "x") w).1 =
    Response 200 (Obj [("userid", JNum 7); ("password", JStr "x")]) ∧
  db (put_password (conv := sqlite) (JNum 7) (JStr "x") w).2 = store_with_user ∧
  rowid_of (conv := sqlite) (bind_param (JNum 1)) = Some 1 ∧
  users (db w) !! 1 = Some alice ∧
  (put_password (conv := sqlite) (JNum 1) JNull w).1 =
    Response 500 (error_json
      "SQLITE_CONSTRAINT: NOT NULL constraint failed: users.password") ∧
  db (put_password (conv := sqlite) (JNum 1) JNull w).2 = store_with_user.
Proof.
  intros w.
  assert (Hh : healthy w) by (intros m; discriminate).
  assert (Hn : ∀ k, rowid_of (conv := sqlite) (bind_param (JNum 7)) = Some k →
                    users (db w) !! k = None)
    by (intros k [= <-]; reflexivity).
  destruct (blind_updates (conv := sqlite) (JNum 7) (JStr "x") w)
    as (A & B & C & _).
  destruct (blind_updates (conv := sqlite) (JNum 1) JNull w)
    as (_ & _ & _ & _ & _ & F & _).
  split; [exact Hh|]. split; [exact Hn|]. split; [exact (A Hh)|].
  split; [exact (B Hh (or_intror Hn))|]. split; [exact (proj2 (C Hh Hn))|].
  split; [reflexivity|]. split; [reflexivity|].
  exact (F Hh 1 alice eq_refl eq_refl eq_refl).
Defined.

(** The claim C6 as the specification words it fails: a null password for a
    user who exists is turned down by the NOT NULL constraint of
    [users.password], in a store and an environment with nothing wrong. *)
Lemma update_password_null_rejected :
  let w := quiet store_with_user in
  let out := put_password (conv := sqlite) (JNum 1) JNull w in
  healthy w ∧
  out.1 = Response 500 (error_json
            "SQLITE_CONSTRAINT: NOT NULL constraint failed: users.password") ∧
  out.1 ≠ Response 200 (Obj [("userid", JNum 1); ("password", JNull)]) ∧
  db out.2 = store_with_user.
Proof.
  split; [intros m; discriminate|]. split; [reflexivity|].
  split; [discriminate|reflexivity].
Qed.

(** C8 at work.  A new store has no NULL where none may be and no value
    against the type of its column, and a run that stores a user and a
    transaction keeps it so. *)
Lemma nullability_witness :
  not_null_ok empty_store ∧
  types_ok (conv := sqlite) empty_store ∧
  let d' := (run (conv := sqlite) empty_store
               [ Event noon post_alice [];
                 Event noon (post_coffee (JNum 1) JNull) [] ]).2 in
  (∀ k r, transactions d' !! k = Some r →
          isExpense r ≠ VNull ∧ amount r ≠ VNull ∧ categoryid r ≠ VNull ∧
          t_timestamp r ≠ VNull) ∧
  (∀ k r, transactions d' !! k = Some r →
          conforms (conv := sqlite) BOOLEAN (isExpense r) ∧
          conforms (conv := sqlite) INTEGER (amount r) ∧
          conforms (conv := sqlite) INTEGER (categoryid r) ∧
          conforms (conv := sqlite) TEXT (description r) ∧
          conforms (conv := sqlite) TEXT (t_timestamp r)).
Proof.
  split; [exact empty_store_not_null_ok|].
  split; [exact empty_store_types_ok|]. intros d'.
  destruct (nullability (conv := sqlite) empty_store
              [ Event noon post_alice [];
                Event noon (post_coffee (JNum 1) JNull) [] ])
    as (_ & _ & A & _ & B).
  destruct (A empty_store_not_null_ok) as (_ & Ht & _).
  destruct (B empty_store_types_ok) as (_ & Ht' & _).
  split; [exact Ht|exact Ht'].
Defined.

(** The claim C8 as the specification words it fails: [description] is
    declared without NOT NULL, and a transaction posted with a null
    description is stored with NULL in that column. *)
Lemma description_may_be_null :
  let out := handle (conv := sqlite) noon (post_coffee (JNum 1) JNull)
               (quiet store_with_user) in
  status out.1 = 200 ∧
  transactions (db out.2) !! 1 =
    Some (TransactionRow (VInt 1) (VInt 500) (VInt 2) VNull (VText noon)) ∧
  (description <$> transactions (db out.2) !! 1) = Some VNull ∧
  Column "description" TEXT false false ∈ tbl_cols transactions_table.
Proof.
  split; [reflexivity|]. split; [reflexivity|]. split; [reflexivity|].
  do 4 apply list_elem_of_further. apply list_elem_of_here.
Qed.

(** C9 at work.  A full disk under [POST /api/transactions] comes back as
    500 with the driver's message, and a delete of nothing as 404. *)
Lemma errors_at_the_boundary_witness :
  (let w := World store_with_user [Some disk_full] [] in
   let out := handle (conv := sqlite) noon (post_coffee (JNum 1) (JStr "coffee")) w in
   (InsertTransaction (VInt 1) (VInt 500) (VInt 2) (VText "coffee") (VText noon),
    Some disk_full) ∈ issued w out.2 ∧
   status out.1 = 500 ∧ payload out.1 = error_json disk_full) ∧
  (let w := quiet store_with_user in
   let out := handle (conv := sqlite) noon (DELETE_api_transactions "7") w in
   out.1 = Response 404 (error_json "Transaction not found")).
Proof.
  split.
  - intros w out.
    assert (Hin : (InsertTransaction (VInt 1) (VInt 500) (VInt 2) (VText "coffee")
                     (VText noon), Some disk_full) ∈ issued w out.2)
      by apply list_elem_of_here.
    destruct (errors_at_the_boundary (conv := sqlite) noon
                (post_coffee (JNum 1) (JStr "coffee")) w) as (A & _).
    destruct (A _ _ Hin) as [Hs Hp].
    split; [exact Hin|]. split; [exact Hs|exact Hp].
  - intros w out.
    destruct (errors_at_the_boundary (conv := sqlite) noon
                (DELETE_api_transactions "7") w) as (_ & _ & C & _).
    exact (C "7" (Reply 0 0 [])
             (World store_with_user [] [(DeleteTransaction (VText "7"), None)])
             eq_refl eq_refl eq_refl).
Defined.

(** The claim C9 as the specification words it fails on [GET /health]: the
    query fails with a message of the driver, and the body of the 500 is
    not [{ error: <that message> }]. *)
Lemma health_hides_the_message :
  let m := "SQLITE_CANTOPEN: unable to open database file" in
  let w := World empty_store [Some m] [] in
  let out := handle (conv := sqlite) noon GET_health w in
  issued w out.2 = [(SelectOne, Some m)] ∧
  status out.1 = 500 ∧
  payload out.1 ≠ error_json m ∧
  payload out.1 = Obj [("status", JStr "error");
                       ("message", JStr "Database connection failed")].
Proof.
  split; [reflexivity|]. split; [reflexivity|].
  split; [discriminate|reflexivity].
Qed.


(** Keys across a deletion: the transaction deleted in between does not
    give its key back. *)
Example keys_across_deletion :
  transactionids_created
    (run (conv := sqlite) store_with_user
       [ Event noon (post_coffee (JNum 1) (JStr "coffee")) [];
         Event noon (DELETE_api_transactions "1") [];
         Event noon (post_coffee (JNum 1) (JStr "tea")) [] ]).1
  = [1; 2].
Proof. vm_compute. reflexivity. Qed.


(** * Beyond the composite protocols *)

Section Routes.

Context {conv : Conversions}.

(** ** The GET routes *)

(** X1.  The four GET routes issue one SELECT and nothing else: whatever the
    environment does to it, the store after the request is the store before
    it. *)
Theorem get_routes_read_only (now : string) (q : request) (w : world) :
  is_get q = true →
  let out := handle now q w in
  db out.2 = db w ∧
  ∃ s o, issued w out.2 = [(s, o)] ∧
         match s with
         | SelectOne | SelectUsers | SelectResetTokens _ | SelectTransactionsOf _ =>
             True
         | _ => False
         end.
Proof.
  intros Hq out. subst out.
  destruct q as [| |un pw em|tk|tk ex|uid tokenid|uid pw|uid ie am ca de|uid|tid];
    try discriminate; simpl; step_handler; simpl.
  all: match goal with |- context [issue ?s ?w0] =>
         destruct (issue s w0) as [[m|this] w1] eqn:E end; simpl.
  all: try (apply issue_err in E as ->; simpl; split; [done|];
            eexists _, _; split; [by apply issued_app|done]).
  all: apply issue_ok in E as (E & _ & L); split;
         [unfold exec, found in E; by simplify_eq
         |eexists _, _; split; [by apply issued_app|done]].
Qed.

Lemma js_of_value_inj (a b : value) : js_of_value a = js_of_value b → a = b.
Proof. destruct a, b; simpl; congruence. Qed.

#[local] Instance token_object_inj : Inj (=) (=) token_object.
Proof.
  intros [k [a b]] [k' [a' b']]. unfold token_object, row_object. simpl.
  intros [= -> ->%js_of_value_inj ->%js_of_value_inj]. done.
Qed.

#[local] Instance user_object_inj : Inj (=) (=) user_object.
Proof.
  intros [k [a b c d e]] [k' [a' b' c' d' e']].
  unfold user_object, row_object. simpl.
  intros [= -> ->%js_of_value_inj ->%js_of_value_inj ->%js_of_value_inj
            ->%js_of_value_inj ->%js_of_value_inj]. done.
Qed.

(** X2.  [GET /api/resettoken?token=...] answers 200 with exactly the rows
    of [resetTokens] whose token equals the one asked for, each once; for a
    token given as a string that is equality of the strings.  Without a
    token in the query the answer is the empty array. *)
Theorem find_reset_tokens_exact (tk : jsval) (w : world) :
  healthy w →
  let out := get_resettoken tk w in
  status out.1 = 200 ∧
  NoDup (listed out.1) ∧
  (∀ o, o ∈ listed out.1 ↔
        ∃ k r, resetTokens (db w) !! k = Some r ∧
               col_eq TEXT (token r) (bind_param tk) = true ∧
               o = token_object (k, r)) ∧
  (∀ t k r, tk = JStr t →
            (token_object (k, r) ∈ listed out.1 ↔
             resetTokens (db w) !! k = Some r ∧ token r = VText t)) ∧
  (bind_param tk = VNull → listed out.1 = []).
Proof.
  intros Hw out. subst out. step_handler. simpl. rewrite issue_quiet by done.
  simpl.
  assert (Hin : ∀ o, o ∈ token_object <$>
                       filter (λ kr, col_eq TEXT (token kr.2) (bind_param tk) = true)
                              (map_to_list (resetTokens (db w))) ↔
                     ∃ k r, resetTokens (db w) !! k = Some r ∧
                            col_eq TEXT (token r) (bind_param tk) = true ∧
                            o = token_object (k, r)).
  { intros o. rewrite list_elem_of_fmap. split.
    - intros ([k r] & -> & [Hm Hl%elem_of_map_to_list]%list_elem_of_filter).
      by exists k, r.
    - intros (k & r & Hl & Hm & ->). exists (k, r). split; [done|].
      apply list_elem_of_filter. split; [done|]. by apply elem_of_map_to_list. }
  split; [done|]. split; [|split; [done|split]].
  - apply NoDup_fmap_2; [apply _|]. apply NoDup_filter, NoDup_map_to_list.
  - intros t k r ->. rewrite Hin. simpl. split.
    + intros (k' & r' & Hl & Hm & [= <- <-]%(inj token_object)).
      split; [done|]. unfold col_eq in Hm. simpl in Hm.
      destruct (token r) as [|n|s]; simpl in Hm; try done.
      by apply bool_decide_eq_true in Hm as ->.
    + intros [Hl Ht]. exists k, r. split; [done|]. split; [|done].
      unfold col_eq. rewrite Ht. simpl. by apply bool_decide_eq_true.
  - intros Hnull.
    apply elem_of_nil_inv. intros o (k & r & _ & Hm & _)%Hin.
    unfold col_eq in Hm. rewrite Hnull in Hm. simpl in Hm.
    by destruct (token r).
Qed.

(** X3.  [GET /api/users] answers 200 with every row of [users], each once
    and with all six columns, the password among them. *)
Theorem list_users_exact (w : world) :
  healthy w →
  let out := get_users w in
  status out.1 = 200 ∧
  NoDup (listed out.1) ∧
  (∀ o, o ∈ listed out.1 ↔
        ∃ k u, users (db w) !! k = Some u ∧ o = user_object (k, u)) ∧
  (∀ k u, users (db w) !! k = Some u →
          [("userid", JNum k);
           ("username", js_of_value (username u));
           ("password", js_of_value (password u));
           ("email", js_of_value (email u));
           ("timestamp", js_of_value (u_timestamp u));
           ("resetTokenId", js_of_value (resetTokenId u))] ∈ listed out.1).
Proof.
  intros Hw out. subst out. step_handler. simpl. rewrite issue_quiet by done.
  simpl.
  assert (Hin : ∀ o, o ∈ user_object <$> map_to_list (users (db w)) ↔
                     ∃ k u, users (db w) !! k = Some u ∧ o = user_object (k, u)).
  { intros o. rewrite list_elem_of_fmap. split.
    - intros ([k u] & -> & Hl%elem_of_map_to_list). by exists k, u.
    - intros (k & u & Hl & ->). exists (k, u). split; [done|].
      by apply elem_of_map_to_list. }
  split; [done|]. split; [|split; [done|]].
  - apply NoDup_fmap_2; [apply _|]. apply NoDup_map_to_list.
  - intros k u Hl. apply Hin. by exists k, u.
Qed.

(** ** What the creates accept *)

Lemma exec_insert_user_cases (a b c : value) (now : string) (d : store) :
  (a ≠ VNull ∧ b ≠ VNull ∧ c ≠ VNull ∧
   ∃ d' r, exec (InsertUser a b c (VText now)) d = inr (d', r)) ∨
  ((a = VNull ∨ b = VNull ∨ c = VNull) ∧
   ∃ col, col ∈ ["username"; "password"; "email"] ∧
          exec (InsertUser a b c (VText now)) d =
            inl ("SQLITE_CONSTRAINT: NOT NULL constraint failed: users." +:+ col)).
Proof.
  unfold exec, check_not_null, completed.
  destruct a, b, c; simpl;
    first [ left; by eauto 10
          | right; split; [by auto|];
            first [ exists "username"; split; [set_solver|done]
                  | exists "password"; split; [set_solver|done]
                  | exists "email"; split; [set_solver|done] ] ].
Qed.

(** X4.  The handler of [POST /api/users] validates nothing itself; the
    NOT NULL columns do.  In a healthy environment the request answers 200
    exactly when [username], [password] and [email] are all present and not
    null; otherwise it answers 500 naming one of the three columns and
    stores nothing. *)
Theorem create_user_requires_fields (now : string) (un pw em : jsval) (w : world) :
  healthy w →
  let out := post_users now un pw em w in
  (status out.1 = 200 ↔
   bind_param un ≠ VNull ∧ bind_param pw ≠ VNull ∧ bind_param em ≠ VNull) ∧
  (status out.1 ≠ 200 →
   db out.2 = db w ∧
   ∃ col, col ∈ ["username"; "password"; "email"] ∧
          out.1 = Response 500
                    (error_json ("SQLITE_CONSTRAINT: NOT NULL constraint failed: users."
                                 +:+ col))).
Proof.
  intros Hw out. subst out. step_handler. simpl. rewrite issue_quiet by done.
  destruct (exec_insert_user_cases (bind_param un) (bind_param pw)
              (bind_param em) now (db w))
    as [(Ha & Hb & Hc & d' & r & ->)|(Hnull & col & Hcol & ->)]; simpl.
  - split; [done|]. done.
  - split.
    + split; [done|]. intros (? & ? & ?). by destruct Hnull as [?|[?|?]].
    + intros _. split; [done|]. by exists col.
Qed.

Lemma exec_insert_reset_token_cases (a b : value) (d : store) :
  (a ≠ VNull ∧ b ≠ VNull ∧
   ∃ d' r, exec (InsertResetToken a b) d = inr (d', r)) ∨
  ((a = VNull ∨ b = VNull) ∧
   ∃ col, col ∈ ["token"; "expiresAt"] ∧
          exec (InsertResetToken a b) d =
            inl ("SQLITE_CONSTRAINT: NOT NULL constraint failed: resetTokens."
                 +:+ col)).
Proof.
  unfold exec, check_not_null, completed.
  destruct a, b; simpl;
    first [ left; by eauto 10
          | right; split; [by auto|];
            first [ exists "token"; split; [set_solver|done]
                  | exists "expiresAt"; split; [set_solver|done] ] ].
Qed.

(** X5.  [POST /api/resettoken] in a healthy environment answers 200 exactly
    when [token] and [expiresAt] are both present and not null; otherwise it
    answers 500 naming one of the two columns and stores nothing. *)
Theorem create_reset_token_requires_fields (tk ex : jsval) (w : world) :
  healthy w →
  let out := post_resettoken tk ex w in
  (status out.1 = 200 ↔ bind_param tk ≠ VNull ∧ bind_param ex ≠ VNull) ∧
  (status out.1 ≠ 200 →
   db out.2 = db w ∧
   ∃ col, col ∈ ["token"; "expiresAt"] ∧
          out.1 = Response 500
                    (error_json ("SQLITE_CONSTRAINT: NOT NULL constraint failed: resetTokens."
                                 +:+ col))).
Proof.
  intros Hw out. subst out. step_handler. simpl. rewrite issue_quiet by done.
  destruct (exec_insert_reset_token_cases (bind_param tk) (bind_param ex) (db w))
    as [(Ha & Hb & d' & r & ->)|(Hnull & col & Hcol & ->)]; simpl.
  - split; [done|]. done.
  - split.
    + split; [done|]. intros (? & ?). by destruct Hnull as [?|?].
    + intros _. split; [done|]. by exists col.
Qed.

Lemma numeric_affinity_null (v : value) : numeric_affinity v = VNull ↔ v = VNull.
Proof.
  destruct v as [|n|s]; simpl; [done|done|]. by destruct (numeric s).
Qed.

Lemma exec_insert_transaction_cases (a b c e : value) (now : string) (d : store) :
  (a ≠ VNull ∧ b ≠ VNull ∧ c ≠ VNull ∧
   ∃ d' r, exec (InsertTransaction a b c e (VText now)) d = inr (d', r)) ∨
  ((a = VNull ∨ b = VNull ∨ c = VNull) ∧
   ∃ m, exec (InsertTransaction a b c e (VText now)) d = inl m).
Proof.
  unfold exec, check_not_null, completed. simpl.
  rewrite !(bool_decide_ext _ _ (numeric_affinity_null _)).
  destruct a, b, c; simpl; first [left; by eauto 10|right; by eauto 10].
Qed.

Lemma exec_insert_mapping_cases (u : value) (k : Z) (d : store) :
  (u ≠ VNull ∧ ∃ d' r, exec (InsertMapping u (VInt k)) d = inr (d', r)) ∨
  (u = VNull ∧ ∃ m, exec (InsertMapping u (VInt k)) d = inl m).
Proof.
  unfold exec, check_not_null, completed. simpl.
  rewrite !(bool_decide_ext _ _ (numeric_affinity_null _)).
  destruct u; simpl; first [left; by eauto 10|right; by eauto 10].
Qed.

(** X6.  [POST /api/transactions], when the environment fails no statement,
    answers 200 exactly when [userid], [isExpense], [amount] and
    [categoryid] are present and not null.  [description] is not needed. *)
Theorem create_transaction_requires_fields (now : string)
    (uid ie am ca de : jsval) (w : world) :
  fault_free w →
  let out := post_transactions now uid ie am ca de w in
  status out.1 = 200 ↔
  bind_param uid ≠ VNull ∧ bind_param ie ≠ VNull ∧ bind_param am ≠ VNull ∧
  bind_param ca ≠ VNull.
Proof.
  intros Hw out. subst out. step_handler. simpl.
  rewrite issue_quiet by by apply fault_free_healthy.
  destruct (exec_insert_transaction_cases (bind_param ie) (bind_param am)
              (bind_param ca) (bind_param de) now (db w))
    as [(Ha & Hb & Hc & d' & r & ->)|(Hnull & m & ->)]; simpl.
  - rewrite issue_quiet by by apply fault_free_healthy, fault_free_tail.
    cbn [db].
    destruct (exec_insert_mapping_cases (bind_param uid) (lastID r) d')
      as [(Hu & d'' & r' & ->)|(Hu & m & ->)]; simpl.
    + done.
    + split; [done|]. by intros (? & _).
  - split; [done|]. intros (_ & ? & ? & ?). by destruct Hnull as [?|[?|?]].
Qed.

(** ** Creating, then reading back *)

Lemma get_resettoken_ok (tk : jsval) (w : world) :
  healthy w →
  listed (get_resettoken tk w).1 =
    token_object <$>
      filter (λ kr, col_eq TEXT (token kr.2) (bind_param tk) = true)
             (map_to_list (resetTokens (db w))).
Proof. intros Hw. step_handler. simpl. by rewrite issue_quiet. Qed.

Lemma get_users_ok (w : world) :
  healthy w →
  listed (get_users w).1 = user_object <$> map_to_list (users (db w)).
Proof. intros Hw. step_handler. simpl. by rewrite issue_quiet. Qed.

Lemma quiet_healthy (d : store) : healthy (quiet d).
Proof. by intros m. Qed.

Lemma post_resettoken_store (tk ex : jsval) (w : world) :
  let out := post_resettoken tk ex w in
  let id := next_rowid (resetTokens_seq (db w)) (resetTokens (db w)) in
  status out.1 = 200 →
  db out.2 =
    Store (users (db w)) (users_seq (db w))
          (transactions (db w)) (transactions_seq (db w))
          (user_transaction_mapping (db w))
          (<[id := TokenRow (affinity TEXT (bind_param tk))
                            (affinity TEXT (bind_param ex))]> (resetTokens (db w)))
          id.
Proof.
  intros out id. subst out. step_handler. simpl.
  match goal with |- context [issue ?s w] =>
    destruct (issue s w) as [[m|this] w1] eqn:E1 end; simpl; [done|].
  intros _. apply issue_ok in E1 as (E1 & _ & _).
  by apply exec_insert_reset_token in E1 as (_ & ->).
Qed.

(** X7.  A reset token created with [POST /api/resettoken] is found again:
    the search for its token string on the store the create left answers
    what it answered before and one row more, the new one under the key the
    create reported; the search for any other token string answers what it
    answered before. *)
Theorem reset_token_round_trip (t : string) (ex : jsval) (w w' : world) :
  let out := post_resettoken (JStr t) ex w in
  status out.1 = 200 →
  db w' = db out.2 →
  healthy w' →
  ∃ id,
    out.1 = Response 200 (Obj [("id", JNum id); ("token", JStr t);
                               ("expiresAt", ex)]) ∧
    resetTokens (db w) !! id = None ∧
    listed (get_resettoken (JStr t) w').1 ≡ₚ
      [("id", JNum id); ("token", JStr t);
       ("expiresAt", js_of_value (affinity TEXT (bind_param ex)))]
      :: listed (get_resettoken (JStr t) (quiet (db w))).1 ∧
    ∀ t', t' ≠ t →
          listed (get_resettoken (JStr t') w').1 ≡ₚ
            listed (get_resettoken (JStr t') (quiet (db w))).1.
Proof.
  intros out Hok Hw' Hh.
  destruct (post_resettoken_ok (JStr t) ex w Hok) as [Hr _].
  pose proof (post_resettoken_store (JStr t) ex w Hok) as Hd.
  fold out in Hr, Hd.
  set (id := next_rowid (resetTokens_seq (db w)) (resetTokens (db w))) in *.
  assert (Hfresh : resetTokens (db w) !! id = None) by apply next_rowid_fresh.
  exists id. split; [done|]. split; [done|].
  rewrite !get_resettoken_ok by (done || apply quiet_healthy).
  rewrite Hw', Hd. simpl. split.
  - rewrite (map_to_list_insert _ _ _ Hfresh).
    rewrite filter_cons_True; [done|]. simpl.
    unfold col_eq. simpl. by apply bool_decide_eq_true.
  - intros t' Ht'.
    rewrite !get_resettoken_ok by (done || apply quiet_healthy).
    rewrite Hw', Hd. simpl.
    rewrite (map_to_list_insert _ _ _ Hfresh).
    rewrite filter_cons_False; [done|]. simpl.
    unfold col_eq. simpl. rewrite bool_decide_false by congruence. done.
Qed.

(** X8.  A user created with [POST /api/users] is in the answer of
    [GET /api/users] from then on: the listing on the store the create left
    is the listing before it and one row more, which carries the key the
    create reported, the stored password and a null [resetTokenId]. *)
Theorem create_user_then_list (now : string) (un pw em : jsval) (w w' : world) :
  let out := post_users now un pw em w in
  status out.1 = 200 →
  db w' = db out.2 →
  healthy w' →
  ∃ id,
    field "userid" out.1 = Some (JNum id) ∧
    listed (get_users w').1 ≡ₚ
      [("userid", JNum id);
       ("username", js_of_value (affinity TEXT (bind_param un)));
       ("password", js_of_value (affinity TEXT (bind_param pw)));
       ("email", js_of_value (affinity TEXT (bind_param em)));
       ("timestamp", JStr now);
       ("resetTokenId", JNull)]
      :: listed (get_users (quiet (db w))).1.
Proof.
  intros out Hok Hw' Hh.
  destruct (post_users_ok now un pw em w Hok) as [Hr Hd]. fold out in Hr, Hd.
  set (id := next_rowid (users_seq (db w)) (users (db w))) in *.
  assert (Hfresh : users (db w) !! id = None) by apply next_rowid_fresh.
  exists id. rewrite Hr. split; [done|].
  rewrite !get_users_ok by (done || apply quiet_healthy).
  rewrite Hw', Hd. simpl.
  by rewrite (map_to_list_insert _ _ _ Hfresh).
Qed.

(** ** The two updates on a user who exists *)

Lemma text_affinity_null (v : value) : text_affinity v = VNull ↔ v = VNull.
Proof. by destruct v. Qed.

Lemma exec_update_password_hit (pw uid : value) (k : Z) (u : user_row) (d : store) :
  rowid_of uid = Some k → users d !! k = Some u → pw ≠ VNull →
  exec (UpdatePassword pw uid) d =
    inr (Store (<[k := UserRow (username u) (affinity TEXT pw) (email u)
                               (u_timestamp u) (resetTokenId u)]> (users d))
               (users_seq d) (transactions d) (transactions_seq d)
               (user_transaction_mapping d) (resetTokens d) (resetTokens_seq d),
         Reply 0 1 []).
Proof.
  intros Hk Hu Hpw. unfold exec. rewrite Hk. simpl. rewrite Hu. simpl.
  by destruct pw.
Qed.

Lemma exec_update_reset_token_hit (tokenid uid : value) (k : Z) (u : user_row)
    (d : store) :
  rowid_of uid = Some k → users d !! k = Some u →
  exec (UpdateResetTokenId tokenid uid) d =
    inr (Store (<[k := UserRow (username u) (password u) (email u)
                               (u_timestamp u) (affinity TEXT tokenid)]> (users d))
               (users_seq d) (transactions d) (transactions_seq d)
               (user_transaction_mapping d) (resetTokens d) (resetTokens_seq d),
         Reply 0 1 []).
Proof.
  intros Hk Hu. unfold exec. rewrite Hk. simpl. rewrite Hu. simpl. done.
Qed.

(** The users listing after one row was replaced. *)
Lemma listed_users_after_update (k : Z) (u u' : user_row) (d : store) (w' : world)
    (o : object) :
  users d !! k = Some u →
  users (db w') = <[k := u']> (users d) →
  healthy w' →
  o ∈ listed (get_users w').1 ↔
  o = user_object (k, u') ∨
  ∃ k' u0, k' ≠ k ∧ users d !! k' = Some u0 ∧ o = user_object (k', u0).
Proof.
  intros Hu Hw' Hh. rewrite get_users_ok by done. rewrite Hw'.
  rewrite list_elem_of_fmap. split.
  - intros ([k' u0] & -> & Hin%elem_of_map_to_list).
    rewrite lookup_insert in Hin. case_decide as Hk.
    + left. by simplify_eq.
    + right. by exists k', u0.
  - intros [->|(k' & u0 & Hk & Hl & ->)].
    + exists (k, u'). split; [done|]. apply elem_of_map_to_list.
      apply lookup_insert_eq.
    + exists (k', u0). split; [done|]. apply elem_of_map_to_list.
      by rewrite lookup_insert_ne.
Qed.

(** X9.  [PUT /api/password] for a user who exists and a password that is
    not null replaces that user's password and nothing else in the store;
    the next [GET /api/users] shows the user with the new password, stored
    as text even when it was sent as a number, and every other user as
    before. *)
Theorem update_password_effect (userid pw : jsval) (k : Z) (u : user_row)
    (w w' : world) :
  healthy w →
  rowid_of (bind_param userid) = Some k →
  users (db w) !! k = Some u →
  bind_param pw ≠ VNull →
  let out := put_password userid pw w in
  let u' := UserRow (username u) (affinity TEXT (bind_param pw)) (email u)
                    (u_timestamp u) (resetTokenId u) in
  out.1 = Response 200 (Obj [("userid", userid); ("password", pw)]) ∧
  db out.2 =
    Store (<[k := u']> (users (db w))) (users_seq (db w))
          (transactions (db w)) (transactions_seq (db w))
          (user_transaction_mapping (db w))
          (resetTokens (db w)) (resetTokens_seq (db w)) ∧
  (∀ s, pw = JStr s → password u' = VText s) ∧
  (∀ n, pw = JNum n → password u' = VText (render n)) ∧
  (db w' = db out.2 → healthy w' →
   ∀ o, o ∈ listed (get_users w').1 ↔
        o = user_object (k, u') ∨
        ∃ k' u0, k' ≠ k ∧ users (db w) !! k' = Some u0 ∧ o = user_object (k', u0)).
Proof.
  intros Hw Hk Hu Hpw out u'.
  assert (Hout : out = (Response 200 (Obj [("userid", userid); ("password", pw)]),
                        World (Store (<[k := u']> (users (db w))) (users_seq (db w))
                                 (transactions (db w)) (transactions_seq (db w))
                                 (user_transaction_mapping (db w))
                                 (resetTokens (db w)) (resetTokens_seq (db w)))
                              (tail (pending w))
                              (log w ++ [(UpdatePassword (bind_param pw)
                                            (bind_param userid), None)]))).
  { subst out. step_handler. simpl. rewrite issue_quiet by done.
    by rewrite (exec_update_password_hit _ _ k u). }
  rewrite Hout. simpl. split; [done|]. split; [done|].
  split; [by intros s ->|]. split; [by intros n ->|].
  intros Hw' Hh o.
  apply (listed_users_after_update k u u' (db w) w' o); [done| |done].
  by rewrite Hw'.
Qed.

(** X10.  [PUT /api/users] for a user who exists sets that user's
    [resetTokenId] and nothing else in the store.  The column is TEXT: a
    [tokenid] sent as a number, as [POST /api/resettoken] reports it, is
    stored and listed as its text, and a null [tokenid] clears the
    column. *)
Theorem assign_reset_token_effect (userid tokenid : jsval) (k : Z) (u : user_row)
    (w w' : world) :
  healthy w →
  rowid_of (bind_param userid) = Some k →
  users (db w) !! k = Some u →
  let out := put_users userid tokenid w in
  let u' := UserRow (username u) (password u) (email u) (u_timestamp u)
                    (affinity TEXT (bind_param tokenid)) in
  out.1 = Response 200 (Obj [("userid", userid); ("tokenid", tokenid)]) ∧
  db out.2 =
    Store (<[k := u']> (users (db w))) (users_seq (db w))
          (transactions (db w)) (transactions_seq (db w))
          (user_transaction_mapping (db w))
          (resetTokens (db w)) (resetTokens_seq (db w)) ∧
  (∀ n, tokenid = JNum n → js_of_value (resetTokenId u') = JStr (render n)) ∧
  (bind_param tokenid = VNull → resetTokenId u' = VNull) ∧
  (db w' = db out.2 → healthy w' →
   ∀ o, o ∈ listed (get_users w').1 ↔
        o = user_object (k, u') ∨
        ∃ k' u0, k' ≠ k ∧ users (db w) !! k' = Some u0 ∧ o = user_object (k', u0)).
Proof.
  intros Hw Hk Hu out u'.
  assert (Hout : out = (Response 200 (Obj [("userid", userid); ("tokenid", tokenid)]),
                        World (Store (<[k := u']> (users (db w))) (users_seq (db w))
                                 (transactions (db w)) (transactions_seq (db w))
                                 (user_transaction_mapping (db w))
                                 (resetTokens (db w)) (resetTokens_seq (db w)))
                              (tail (pending w))
                              (log w ++ [(UpdateResetTokenId (bind_param tokenid)
                                            (bind_param userid), None)]))).
  { subst out. step_handler. simpl. rewrite issue_quiet by done.
    by rewrite (exec_update_reset_token_hit _ _ k u). }
  rewrite Hout. simpl. split; [done|]. split; [done|].
  split; [by intros n ->|]. split; [by intros ->|].
  intros Hw' Hh o.
  apply (listed_users_after_update k u u' (db w) w' o); [done| |done].
  by rewrite Hw'.
Qed.

(** ** What no request ever does *)

(** X11.  No route deletes a user or touches a user's [username], [email]
    or [timestamp]: whatever requests are served, a user of the store at
    the start is there at the end with these three columns as they were. *)
Theorem users_persist (d : store) (es : list event) (k : Z) (u : user_row) :
  users d !! k = Some u →
  ∃ u', users (run d es).2 !! k = Some u' ∧
        username u' = username u ∧ email u' = email u ∧
        u_timestamp u' = u_timestamp u.
Proof.
  revert k u.
  apply (run_steps (λ a b, ∀ k u, users a !! k = Some u →
                     ∃ u', users b !! k = Some u' ∧
                           username u' = username u ∧ email u' = email u ∧
                           u_timestamp u' = u_timestamp u)).
  - intros a k u Hu. by exists u.
  - intros a b c Hab Hbc k u Hu.
    destruct (Hab k u Hu) as (u1 & Hl1 & ? & ? & ?).
    destruct (Hbc k u1 Hl1) as (u2 & Hl2 & ? & ? & ?).
    exists u2. split; [done|]. repeat split; congruence.
  - intros s a b r E k u Hu.
    destruct s; exec_cases E; simpl; try (by exists u).
    + exists u. split; [|done]. rewrite lookup_insert_ne; [done|].
      intros Heq. rewrite <- Heq, next_rowid_fresh in Hu. done.
    + match goal with H : _ ≫= _ = Some _ |- _ =>
        apply bind_Some in H as (k' & _ & (u1 & Hl & Heq)%fmap_Some) end.
      simplify_eq. destruct (decide (k' = k)) as [->|Hne].
      * rewrite lookup_insert_eq. eexists. split; [done|].
        simplify_eq. done.
      * exists u. by rewrite lookup_insert_ne.
    + match goal with H : _ ≫= _ = Some _ |- _ =>
        apply bind_Some in H as (k' & _ & (u1 & Hl & Heq)%fmap_Some) end.
      simplify_eq. destruct (decide (k' = k)) as [->|Hne].
      * rewrite lookup_insert_eq. eexists. split; [done|].
        simplify_eq. done.
      * exists u. by rewrite lookup_insert_ne.
Qed.

(** X12.  No route changes or deletes a reset token: a row of [resetTokens]
    at the start of a run is there, unchanged, at its end. *)
Theorem reset_tokens_persist (d : store) (es : list event) (k : Z) (r : token_row) :
  resetTokens d !! k = Some r → resetTokens (run d es).2 !! k = Some r.
Proof.
  revert k r.
  apply (run_steps (λ a b, ∀ k r, resetTokens a !! k = Some r →
                                  resetTokens b !! k = Some r)).
  - done.
  - by auto.
  - intros s a b r0 E k r Hr.
    destruct s; exec_cases E; simpl; try done.
    rewrite lookup_insert_ne; [done|].
    intros Heq. rewrite <- Heq, next_rowid_fresh in Hr. done.
Qed.

(** X13.  No route rewrites a transaction: a row of [transactions] at the
    end of a run is either that same row of the store at the start, or was
    created during the run under a key above the sequence the run found. *)
Theorem transactions_never_rewritten (d : store) (es : list event) (k : Z)
    (t : transaction_row) :
  transactions (run d es).2 !! k = Some t →
  transactions d !! k = Some t ∨ transactions_seq d < k.
Proof.
  revert k t.
  cut (transactions_seq d ≤ transactions_seq (run d es).2 ∧
       ∀ k t, transactions (run d es).2 !! k = Some t →
              transactions d !! k = Some t ∨ transactions_seq d < k);
    [by intros [_ ?]|].
  apply (run_steps (λ a b, transactions_seq a ≤ transactions_seq b ∧
                    ∀ k t, transactions b !! k = Some t →
                           transactions a !! k = Some t ∨ transactions_seq a < k)).
  - intros a. split; [lia|]. by auto.
  - intros a b c [Hab1 Hab2] [Hbc1 Hbc2]. split; [lia|].
    intros k t Ht. destruct (Hbc2 k t Ht) as [Hb|Hb]; [|right; lia].
    by apply Hab2.
  - intros s a b r E. split; [by apply exec_seq_mono in E as (_ & ? & _)|].
    intros k t Ht.
    destruct s; exec_cases E; simpl in *; try (by left).
    + rewrite lookup_insert in Ht. case_decide as Hk; [|by left].
      right. subst k. apply next_rowid_gt.
    + apply lookup_delete_Some in Ht as [_ Ht]. by left.
Qed.

(** ** The composite protocols when they succeed *)

Lemma filter_none {A} (P : A → Prop) `{∀ x, Decision (P x)} (l : list A) :
  (∀ x, x ∈ l → ¬ P x) → filter P l = [].
Proof.
  induction l as [|x l IH]; intros Hl; [done|].
  rewrite filter_cons_False by (apply Hl, list_elem_of_here).
  apply IH. intros y Hy. by apply Hl, list_elem_of_further.
Qed.

(** X14.  A [POST /api/transactions] that answers 200 has added one
    transaction row and appended one mapping row, and nothing else; in a
    store whose mapping rows only point at keys already handed out, the new
    transaction then has exactly one mapping row, and the store keeps that
    property. *)
Theorem create_transaction_one_mapping (now : string)
    (uid ie am ca de : jsval) (w : world) :
  let out := post_transactions now uid ie am ca de w in
  let id := next_rowid (transactions_seq (db w)) (transactions (db w)) in
  status out.1 = 200 →
  mapping_in_sequence (db w) →
  field "transactionid" out.1 = Some (JNum id) ∧
  transactions (db w) !! id = None ∧
  is_Some (transactions (db out.2) !! id) ∧
  (∀ k, k ≠ id → transactions (db out.2) !! k = transactions (db w) !! k) ∧
  user_transaction_mapping (db out.2) =
    user_transaction_mapping (db w)
      ++ [MappingRow (affinity INTEGER (bind_param uid)) (VInt id)] ∧
  List.length (filter (λ r, m_transactionid r = VInt id)
                 (user_transaction_mapping (db out.2))) = 1%nat ∧
  users (db out.2) = users (db w) ∧
  resetTokens (db out.2) = resetTokens (db w) ∧
  mapping_in_sequence (db out.2).
Proof.
  intros out id Hok Hseq.
  destruct (post_transactions_ok now uid ie am ca de w Hok) as (Hr & _ & _ & Hd).
  fold out in Hr, Hd. fold id in Hr, Hd. rewrite Hr, Hd. simpl.
  assert (Hgt : transactions_seq (db w) < id) by apply next_rowid_gt.
  split; [done|]. split; [apply next_rowid_fresh|].
  split; [by rewrite lookup_insert_eq|].
  split; [by intros k Hk; rewrite lookup_insert_ne|].
  split; [done|]. split; [|split; [done|split; [done|]]].
  - rewrite filter_app, length_app.
    rewrite filter_none; [by rewrite filter_cons_True|].
    intros r Hr' Heq. apply (Hseq r id Hr') in Heq. lia.
  - intros r k [Hr'|Hr'%list_elem_of_singleton]%elem_of_app Hk; simpl.
    + specialize (Hseq r k Hr' Hk). lia.
    + subst r. simpl in Hk. injection Hk as <-. lia.
Qed.

Lemma joined_insert (d d' : store) (id : Z) (row : transaction_row) (r : mapping_row) :
  transactions d' = <[id := row]> (transactions d) →
  m_transactionid r ≠ VInt id →
  joined d' r = joined d r.
Proof.
  intros Ht Hr. unfold joined. destruct (m_transactionid r) as [|k|s]; try done.
  rewrite Ht, lookup_insert_ne; [done|]. congruence.
Qed.

Lemma joined_delete (d d' : store) (k : Z) (r : mapping_row) :
  transactions d' = delete k (transactions d) →
  m_transactionid r ≠ VInt k →
  joined d' r = joined d r.
Proof.
  intros Ht Hr. unfold joined. destruct (m_transactionid r) as [|k'|s]; try done.
  rewrite Ht, lookup_delete_ne; [done|]. congruence.
Qed.

Lemma omap_joined_ext (d d' : store) (l : list mapping_row) :
  (∀ r, r ∈ l → joined d' r = joined d r) →
  omap (joined d') l = omap (joined d) l.
Proof.
  unfold omap. induction l as [|r l IH]; intros Hl; [done|]. simpl.
  rewrite (Hl r) by apply list_elem_of_here.
  rewrite IH; [done|]. intros r' Hr'. by apply Hl, list_elem_of_further.
Qed.

(** X15.  A [POST /api/transactions] that answers 200, in a store whose
    mapping rows only point at keys already handed out, adds the new
    transaction at the end of the listing of every path that selects the
    stored [userid], and leaves the listing of every other path as it
    was. *)
Theorem create_extends_one_listing (now : string)
    (uid ie am ca de : jsval) (w : world) (userId : string) (w' : world) :
  let out := post_transactions now uid ie am ca de w in
  let id := next_rowid (transactions_seq (db w)) (transactions (db w)) in
  let row := TransactionRow
               (affinity BOOLEAN (bind_param ie))
               (affinity INTEGER (bind_param am))
               (affinity INTEGER (bind_param ca))
               (affinity TEXT (bind_param de)) (VText now) in
  status out.1 = 200 →
  mapping_in_sequence (db w) →
  db w' = db out.2 →
  healthy w' →
  listed (get_transactions userId w').1 =
    listed (get_transactions userId (quiet (db w))).1
      ++ (if col_eq INTEGER (affinity INTEGER (bind_param uid)) (VText userId)
          then [transaction_object (id, row)] else []).
Proof.
  intros out id row Hok Hseq Hw' Hh.
  destruct (post_transactions_ok now uid ie am ca de w Hok) as (_ & _ & _ & Hd).
  fold out in Hd. fold id row in Hd.
  rewrite !get_transactions_ok by (done || apply quiet_healthy).
  cbn [listed payload db quiet].
  assert (Hold : omap (joined (db w'))
                   (filter (λ r, col_eq INTEGER (m_userid r) (VText userId) = true)
                           (user_transaction_mapping (db w))) =
                 select_transactions_of (db w) (VText userId)).
  { apply omap_joined_ext. intros r [_ Hr]%list_elem_of_filter.
    apply (joined_insert _ _ id row); [by rewrite Hw', Hd|].
    intros Heq. apply (Hseq r id Hr) in Heq.
    pose proof (next_rowid_gt (transactions_seq (db w)) (transactions (db w)))
      as Hgt.
    fold id in Hgt. lia. }
  assert (Hnew : joined (db w')
                   (MappingRow (affinity INTEGER (bind_param uid)) (VInt id)) =
                 Some (id, row)).
  { unfold joined. cbn [m_transactionid]. rewrite Hw', Hd.
    cbn [transactions]. by rewrite lookup_insert_eq. }
  unfold select_transactions_of at 1.
  replace (user_transaction_mapping (db w'))
    with (user_transaction_mapping (db w)
            ++ [MappingRow (affinity INTEGER (bind_param uid)) (VInt id)])
    by by rewrite Hw', Hd.
  rewrite filter_app, omap_app, Hold, fmap_app. f_equal.
  rewrite filter_cons, filter_nil. cbn [m_userid].
  destruct (col_eq INTEGER (affinity INTEGER (bind_param uid)) (VText userId))
    eqn:E.
  - rewrite decide_True by done. unfold omap. cbn [list_omap]. by rewrite Hnew.
  - rewrite decide_False by done. done.
Qed.

Lemma select_after_delete (d d' : store) (k : Z) (p : value) :
  transactions d' = delete k (transactions d) →
  user_transaction_mapping d' =
    filter (λ r, m_transactionid r ≠ VInt k) (user_transaction_mapping d) →
  select_transactions_of d' p =
    filter (λ kt, kt.1 ≠ k) (select_transactions_of d p).
Proof.
  intros Ht Hm. unfold select_transactions_of, omap. rewrite Hm. clear Hm.
  induction (user_transaction_mapping d) as [|r l IH]; [done|].
  rewrite (filter_cons (λ r, m_transactionid r ≠ VInt k)).
  destruct (decide (m_transactionid r ≠ VInt k)) as [Hr|Hr].
  - rewrite !filter_cons.
    destruct (decide (col_eq INTEGER (m_userid r) p = true)) as [Hu|Hu];
      [|exact IH].
    simpl. rewrite (joined_delete d d' k r Ht Hr).
    destruct (joined d r) as [[k' t]|] eqn:J; [|exact IH].
    apply joined_Some in J as [Hk _].
    rewrite filter_cons_True by (simpl; congruence). by rewrite IH.
  - apply dec_stable in Hr. rewrite !filter_cons.
    destruct (decide (col_eq INTEGER (m_userid r) p = true)) as [Hu|Hu];
      [|exact IH].
    simpl. destruct (joined d r) as [[k' t]|] eqn:J; [|exact IH].
    apply joined_Some in J as [Hk _].
    rewrite filter_cons_False; [exact IH|]. simpl. congruence.
Qed.

Lemma filter_objects (k : Z) (l : list (Z * transaction_row)) :
  filter (λ o, has_transactionid k o = false) (transaction_object <$> l) =
  transaction_object <$> filter (λ kt, kt.1 ≠ k) l.
Proof.
  induction l as [|[k' t] l IH]; [done|].
  rewrite fmap_cons, (filter_cons (λ o, has_transactionid k o = false)).
  rewrite has_transactionid_object, (filter_cons (λ kt, kt.1 ≠ k)). simpl.
  destruct (decide (k' ≠ k)) as [Hne|Heq].
  - rewrite decide_True by by apply bool_decide_eq_false.
    by rewrite fmap_cons, IH.
  - apply dec_stable in Heq. subst k'.
    rewrite decide_False; [done|]. by rewrite bool_decide_true.
Qed.

(** X16.  A [DELETE /api/transactions/:transactionid] that answers 200 takes
    the entries of the deleted transaction out of every listing and leaves
    all other entries in place and in order. *)
Theorem delete_filters_listings (transactionid : string) (w : world)
    (userId : string) (w' : world) :
  let out := delete_transactions transactionid w in
  status out.1 = 200 →
  db w' = db out.2 →
  healthy w' →
  ∃ k, numeric transactionid = Some k ∧
       listed (get_transactions userId w').1 =
         filter (λ o, has_transactionid k o = false)
                (listed (get_transactions userId (quiet (db w))).1).
Proof.
  intros out Hok Hw' Hh.
  destruct (delete_transactions_ok transactionid w Hok) as (k & Hk & _ & Hd).
  fold out in Hd. exists k. split; [done|].
  rewrite !get_transactions_ok by (done || apply quiet_healthy). simpl.
  rewrite (select_after_delete (db w) (db w') k);
    [|by rewrite Hw', Hd|by rewrite Hw', Hd].
  symmetry. apply filter_objects.
Qed.

(** X17.  Deleting the same transaction again, after a delete that answered
    200, answers 404 and changes nothing. *)
Theorem delete_twice_not_found (transactionid : string) (w w' : world) :
  let out := delete_transactions transactionid w in
  status out.1 = 200 →
  db w' = db out.2 →
  healthy w' →
  (delete_transactions transactionid w').1 =
    Response 404 (error_json "Transaction not found") ∧
  db (delete_transactions transactionid w').2 = db w'.
Proof.
  intros out Hok Hw' Hh.
  destruct (delete_transactions_ok transactionid w Hok) as (k & Hk & _ & Hd).
  fold out in Hd.
  step_handler. simpl. rewrite issue_quiet by done.
  unfold exec. rewrite rowid_of_text, Hk. simpl.
  rewrite Hw', Hd. simpl. rewrite lookup_delete_eq. simpl. done.
Qed.

(** ** Each route keeps to its tables *)

Ltac run_issues :=
  repeat (match goal with
          | |- context [issue ?s ?w0] =>
              let E := fresh "E" in
              destruct (issue s w0) as [[?|?] ?] eqn:E;
              [apply issue_err in E; subst
              |apply issue_ok in E as (E & _ & _); exec_cases E]
          end;
          simpl; try case_bool_decide; simpl);
  repeat match goal with
         | H : _ = db _ |- _ => rewrite <- H; clear H
         end;
  simpl.

Lemma handle_keeps_tables (now : string) (q : request) (w : world) :
  let d' := db (handle now q w).2 in
  (writes_users q = false →
   users d' = users (db w) ∧ users_seq d' = users_seq (db w)) ∧
  (writes_transactions q = false →
   transactions d' = transactions (db w) ∧
   transactions_seq d' = transactions_seq (db w) ∧
   user_transaction_mapping d' = user_transaction_mapping (db w)) ∧
  (writes_resetTokens q = false →
   resetTokens d' = resetTokens (db w) ∧
   resetTokens_seq d' = resetTokens_seq (db w)).
Proof.
  destruct q as [| |un pw em|tk|tk ex|uid tokenid|uid pw|uid ie am ca de|uid|tid];
    simpl; step_handler; simpl; run_issues; done.
Qed.

(** X18.  Each route writes only to its own tables.  [users] and its
    sequence change only under [POST /api/users], [PUT /api/users] and
    [PUT /api/password]; [transactions], its sequence and the mapping table
    only under [POST] and [DELETE /api/transactions]; [resetTokens] and its
    sequence only under [POST /api/resettoken]. *)
Theorem routes_keep_to_their_tables (now : string) (q : request) (w : world) :
  let d' := db (handle now q w).2 in
  (writes_users q = false →
   users d' = users (db w) ∧ users_seq d' = users_seq (db w)) ∧
  (writes_transactions q = false →
   transactions d' = transactions (db w) ∧
   transactions_seq d' = transactions_seq (db w) ∧
   user_transaction_mapping d' = user_transaction_mapping (db w)) ∧
  (writes_resetTokens q = false →
   resetTokens d' = resetTokens (db w) ∧
   resetTokens_seq d' = resetTokens_seq (db w)).
Proof. apply handle_keeps_tables. Qed.

(** ** Mapping rows and their transactions *)

Lemma delete_undisturbed (transactionid : string) (w : world) :
  fault_free w →
  status (delete_transactions transactionid w).1 = 200 ∨
  db (delete_transactions transactionid w).2 = db w.
Proof.
  intros Hw. step_handler. simpl.
  destruct (issue (DeleteTransaction (VText transactionid)) w)
    as [[m|this] w1] eqn:E1; simpl.
  { apply issue_err in E1 as ->. by right. }
  apply issue_ok in E1 as (E1 & P1 & _).
  case_bool_decide as Hc; simpl.
  - right. apply exec_delete_transaction in E1 as [(_ & -> & _)|(Hc' & _)];
      [done|lia].
  - destruct (issue (DeleteMapping (VText transactionid)) w1)
      as [[m|r2] w2] eqn:E2; simpl; [|by left].
    rewrite issue_quiet in E2.
    + destruct (exec_delete_mapping (VText transactionid) (db w1)) as [r' Hr'].
      by rewrite Hr' in E2.
    + intros m' Hm'. apply (Hw m'). rewrite P1 in Hm'.
      destruct (pending w) as [|o [|o' l]]; simplify_eq/=.
      apply list_elem_of_further, list_elem_of_here.
Qed.

Lemma handle_no_dangling (now : string) (q : request) (w : world) :
  fault_free w →
  no_dangling (db w) → no_dangling (db (handle now q w).2).
Proof.
  intros Hw Hd.
  destruct (handle_keeps_tables now q w) as (_ & Hkeep & _).
  destruct (writes_transactions q) eqn:Hq.
  - destruct q as [| |un pw em|tk|tk ex|uid tokenid|uid pw|uid ie am ca de|uid|tid];
      try discriminate; simpl.
    + unfold no_dangling in *. step_handler. simpl. run_issues.
      * done.
      * intros r Hr. destruct (Hd r Hr) as (k & Hk & [t Ht]).
        exists k. split; [done|]. rewrite lookup_insert_ne; [by eexists|].
        intros Heq. rewrite <- Heq, next_rowid_fresh in Ht. done.
      * intros r [Hr|Hr%list_elem_of_singleton]%elem_of_app.
        -- destruct (Hd r Hr) as (k & Hk & [t Ht]).
           exists k. split; [done|]. rewrite lookup_insert_ne; [by eexists|].
           intros Heq. rewrite <- Heq, next_rowid_fresh in Ht. done.
        -- subst r. simpl. eexists. split; [done|].
           by rewrite lookup_insert_eq.
    + destruct (delete_undisturbed tid w Hw) as [Hok|Hsame]; [|by rewrite Hsame].
      destruct (delete_transactions_ok tid w Hok) as (k & _ & _ & ->). simpl.
      intros r [Hr Hin]%list_elem_of_filter.
      destruct (Hd r Hin) as (k' & Hk' & Hs). exists k'. split; [done|].
      simpl. rewrite lookup_delete_ne; [done|]. congruence.
  - destruct (Hkeep eq_refl) as (Ht & _ & Hm).
    intros r Hr. rewrite Hm in Hr. rewrite Ht. by apply Hd.
Qed.

(** X19.  As long as the environment fails no statement, the server leaves
    no mapping row without its transaction: if every mapping row of the
    store points at an existing transaction before a run of undisturbed
    requests, so it does after.  (A missing [userid] may still leave a
    transaction without a mapping row; the converse is what holds.) *)
Theorem no_dangling_mapping (d : store) (es : list event) :
  Forall undisturbed es →
  no_dangling d → no_dangling (run d es).2.
Proof.
  revert d. induction es as [|e es IH]; intros d Hes Hd; simpl; [done|].
  apply Forall_cons in Hes as [He Hes]. unfold serve.
  pose proof (handle_no_dangling (ev_now e) (ev_request e)
                (World d (ev_faults e) []) He Hd) as H1.
  destruct (handle _ _ _) as [r w1]. simpl in H1.
  specialize (IH (db w1) Hes H1). by destruct (run (db w1) es) as [tr d2].
Qed.

(** ** Keys without gaps *)

Lemma foldr_max_le (l : list Z) (M : Z) :
  0 ≤ M → (∀ k, k ∈ l → k ≤ M) → foldr Z.max 0 l ≤ M.
Proof.
  intros HM. induction l as [|x l IH]; intros Hl; simpl; [done|].
  pose proof (Hl x (list_elem_of_here _ _)).
  assert (foldr Z.max 0 l ≤ M)
    by (apply IH; intros k Hk; by apply Hl, list_elem_of_further).
  lia.
Qed.

Lemma next_rowid_in_sequence {A} (seq : Z) (m : gmap Z A) :
  0 ≤ seq → (∀ k v, m !! k = Some v → k ≤ seq) →
  next_rowid seq m = seq + 1.
Proof.
  intros Hseq Hm. unfold next_rowid.
  assert (max_rowid m ≤ seq); [|lia].
  apply foldr_max_le; [done|].
  intros k ([k' v] & -> & Hin%elem_of_map_to_list)%list_elem_of_fmap.
  by eapply Hm.
Qed.

Lemma run_keys_consecutive (Inv : store → Prop) (seq : store → Z)
    (key : event * response → option Z) :
  (∀ d e, Inv d → Inv (serve d e).2) →
  (∀ d e, Inv d →
          match key (e, (serve d e).1) with
          | Some k => k = seq d + 1 ∧ seq (serve d e).2 = k
          | None => seq (serve d e).2 = seq d
          end) →
  ∀ es d, Inv d →
    omap key (run d es).1 =
      seqZ (seq d + 1) (Z.of_nat (List.length (omap key (run d es).1))).
Proof.
  intros Hinv Hkey es.
  induction es as [|e es IH]; intros d Hd; simpl; [done|].
  specialize (Hinv d e Hd). specialize (Hkey d e Hd).
  destruct (serve d e) as [r d1] eqn:Es. simpl in *.
  specialize (IH d1 Hinv). destruct (run d1 es) as [tr d2]. simpl in *.
  destruct (key (e, r)) as [k|] eqn:Ek.
  - destruct Hkey as [-> Hseq]. cbn -[Z.of_nat seqZ].
    rewrite Nat2Z.inj_succ, seqZ_cons by lia. f_equal.
    rewrite Z.pred_succ, IH at 1. by rewrite Hseq.
  - rewrite IH at 1. by rewrite Hkey.
Qed.

Lemma exec_users_in_sequence (s : sql) (d d' : store) (r : reply) :
  exec s d = inr (d', r) → users_in_sequence d → users_in_sequence d'.
Proof.
  intros E [Hseq Hd]. unfold users_in_sequence.
  destruct s; exec_cases E; simpl; try done.
  - pose proof (next_rowid_gt (users_seq d) (users d)). split; [lia|].
    intros k0 v0. rewrite lookup_insert. case_decide; [intros; lia|].
    intros Hu%Hd. lia.
  - split; [done|]. intros k0 v0. rewrite lookup_insert.
    case_decide; [|by eauto]. intros _. subst.
    match goal with H : _ ≫= _ = Some _ |- _ =>
      apply bind_Some in H as (k' & _ & (u1 & Hl & Heq)%fmap_Some) end.
    simplify_eq. by eapply Hd.
  - split; [done|]. intros k0 v0. rewrite lookup_insert.
    case_decide; [|by eauto]. intros _. subst.
    match goal with H : _ ≫= _ = Some _ |- _ =>
      apply bind_Some in H as (k' & _ & (u1 & Hl & Heq)%fmap_Some) end.
    simplify_eq. by eapply Hd.
Qed.

Lemma serve_users_in_sequence (d : store) (e : event) :
  users_in_sequence d → users_in_sequence (serve d e).2.
Proof.
  unfold serve.
  pose proof (handle_steps (λ a b, users_in_sequence a → users_in_sequence b)
                (ev_now e) (ev_request e) (World d (ev_faults e) [])) as Hs.
  destruct (handle _ _ _) as [r w1]. simpl in *. apply Hs; [done|by auto|].
  apply exec_users_in_sequence.
Qed.

Lemma handle_users_seq (now : string) (q : request) (w : world) :
  is_post_users q = false →
  users_seq (db (handle now q w).2) = users_seq (db w).
Proof.
  destruct q as [| |un pw em|tk|tk ex|uid tokenid|uid pw|uid ie am ca de|uid|tid];
    try discriminate; intros _; simpl; step_handler; simpl; run_issues; done.
Qed.

Lemma post_users_failed (now : string) (un pw em : jsval) (w : world) :
  status (post_users now un pw em w).1 ≠ 200 →
  db (post_users now un pw em w).2 = db w.
Proof.
  step_handler. simpl.
  match goal with |- context [issue ?s w] =>
    destruct (issue s w) as [[m|this] w1] eqn:E end; simpl; [|done].
  by apply issue_err in E as ->.
Qed.

Lemma serve_userid (d : store) (e : event) :
  users_in_sequence d →
  match created_key is_post_users "userid" (e, (serve d e).1) with
  | Some k => k = users_seq d + 1 ∧ users_seq (serve d e).2 = k
  | None => users_seq (serve d e).2 = users_seq d
  end.
Proof.
  intros [Hseq Hd]. unfold created_key, serve. simpl.
  destruct (is_post_users (ev_request e)) eqn:Hq; simpl.
  - destruct (ev_request e) as [| |un pw em|tk|tk ex|uid tokenid|uid pw
                                |uid ie am ca de|uid|tid]; try discriminate.
    simpl.
    pose proof (post_users_ok (ev_now e) un pw em (World d (ev_faults e) []))
      as Hok.
    pose proof (post_users_failed (ev_now e) un pw em (World d (ev_faults e) []))
      as Hfail.
    destruct (post_users _ _ _ _ _) as [r w1]. simpl in *.
    case_bool_decide as Hs.
    + destruct (Hok Hs) as [-> ->]. simpl.
      by rewrite next_rowid_in_sequence.
    + by rewrite Hfail.
  - pose proof (handle_users_seq (ev_now e) (ev_request e)
                  (World d (ev_faults e) []) Hq) as Hsame.
    by destruct (handle _ _ _) as [r w1].
Qed.

(** X20.  From a store whose user keys lie within the sequence (a new store
    is one), the [userid]s that successful [POST /api/users] requests report
    along a run are consecutive: the first is one above the sequence the run
    found and each next one is one above the last, whatever other requests
    and failures come in between. *)
Theorem userids_consecutive (d : store) (es : list event) :
  users_in_sequence d →
  let ids := userids_created (run d es).1 in
  ids = seqZ (users_seq d + 1) (Z.of_nat (List.length ids)).
Proof.
  intros Hd ids. subst ids. unfold userids_created.
  apply (run_keys_consecutive users_in_sequence users_seq); [| |done].
  - apply serve_users_in_sequence.
  - apply serve_userid.
Qed.

Lemma exec_resetTokens_in_sequence (s : sql) (d d' : store) (r : reply) :
  exec s d = inr (d', r) →
  resetTokens_in_sequence d → resetTokens_in_sequence d'.
Proof.
  intros E [Hseq Hd]. unfold resetTokens_in_sequence.
  destruct s; exec_cases E; simpl; try done.
  pose proof (next_rowid_gt (resetTokens_seq d) (resetTokens d)). split; [lia|].
  intros k0 v0. rewrite lookup_insert. case_decide; [intros; lia|].
  intros Hu%Hd. lia.
Qed.

Lemma serve_resetTokens_in_sequence (d : store) (e : event) :
  resetTokens_in_sequence d → resetTokens_in_sequence (serve d e).2.
Proof.
  unfold serve.
  pose proof (handle_steps
                (λ a b, resetTokens_in_sequence a → resetTokens_in_sequence b)
                (ev_now e) (ev_request e) (World d (ev_faults e) [])) as Hs.
  destruct (handle _ _ _) as [r w1]. simpl in *. apply Hs; [done|by auto|].
  apply exec_resetTokens_in_sequence.
Qed.

Lemma post_resettoken_failed (tk ex : jsval) (w : world) :
  status (post_resettoken tk ex w).1 ≠ 200 →
  db (post_resettoken tk ex w).2 = db w.
Proof.
  step_handler. simpl.
  match goal with |- context [issue ?s w] =>
    destruct (issue s w) as [[m|this] w1] eqn:E end; simpl; [|done].
  by apply issue_err in E as ->.
Qed.

Lemma serve_tokenid (d : store) (e : event) :
  resetTokens_in_sequence d →
  match created_key is_post_resettoken "id" (e, (serve d e).1) with
  | Some k => k = resetTokens_seq d + 1 ∧ resetTokens_seq (serve d e).2 = k
  | None => resetTokens_seq (serve d e).2 = resetTokens_seq d
  end.
Proof.
  intros [Hseq Hd]. unfold created_key, serve. simpl.
  destruct (is_post_resettoken (ev_request e)) eqn:Hq; simpl.
  - destruct (ev_request e) as [| |un pw em|tk|tk ex|uid tokenid|uid pw
                                |uid ie am ca de|uid|tid]; try discriminate.
    simpl.
    pose proof (post_resettoken_ok tk ex (World d (ev_faults e) [])) as Hok.
    pose proof (post_resettoken_failed tk ex (World d (ev_faults e) [])) as Hfail.
    destruct (post_resettoken _ _ _) as [r w1]. simpl in *.
    case_bool_decide as Hs.
    + destruct (Hok Hs) as [-> ->]. simpl.
      by rewrite next_rowid_in_sequence.
    + by rewrite Hfail.
  - destruct (handle_keeps_tables (ev_now e) (ev_request e)
                (World d (ev_faults e) [])) as (_ & _ & Hkeep).
    destruct (handle _ _ _) as [r w1]. simpl in *.
    apply Hkeep. by destruct (ev_request e).
Qed.

(** X21.  Likewise for reset tokens: from a store whose token keys lie
    within the sequence, the [id]s that successful [POST /api/resettoken]
    requests report along a run are consecutive. *)
Theorem tokenids_consecutive (d : store) (es : list event) :
  resetTokens_in_sequence d →
  let ids := tokenids_created (run d es).1 in
  ids = seqZ (resetTokens_seq d + 1) (Z.of_nat (List.length ids)).
Proof.
  intros Hd ids. subst ids. unfold tokenids_created.
  apply (run_keys_consecutive resetTokens_in_sequence resetTokens_seq);
    [| |done].
  - apply serve_resetTokens_in_sequence.
  - apply serve_tokenid.
Qed.

End Routes.

(** * The other routes at work *)

(** X1 at work: a listing of users under a full disk. *)
Lemma get_routes_read_only_witness :
  let w := World store_with_user [Some disk_full] [] in
  is_get GET_api_users = true ∧
  db (handle (conv := sqlite) noon GET_api_users w).2 = store_with_user.
Proof.
  intros w. split; [reflexivity|].
  exact (proj1 (get_routes_read_only (conv := sqlite) noon GET_api_users w eq_refl)).
Defined.

(** X2 at work: the token of the store is found, and nothing without a
    token. *)
Lemma find_reset_tokens_exact_witness :
  let w := quiet store_with_token in
  healthy w ∧
  token_object (1, reset_row)
    ∈ listed (get_resettoken (conv := sqlite) (JStr "tok") w).1 ∧
  listed (get_resettoken (conv := sqlite) JUndefined w).1 = [].
Proof.
  intros w. pose proof (quiet_healthy store_with_token) as Hh.
  destruct (find_reset_tokens_exact (conv := sqlite) (JStr "tok") w Hh)
    as (_ & _ & _ & Hstr & _).
  destruct (find_reset_tokens_exact (conv := sqlite) JUndefined w Hh)
    as (_ & _ & _ & _ & Hnull).
  split; [exact Hh|]. split.
  - apply (proj2 (Hstr "tok" 1 reset_row eq_refl)). split; reflexivity.
  - apply Hnull. reflexivity.
Defined.

(** X3 at work: the listing of the one user, password and all. *)
Lemma list_users_exact_witness :
  let w := quiet store_with_user in
  healthy w ∧
  [("userid", JNum 1); ("username", JStr "a"); ("password", JStr "p");
   ("email", JStr "a@x.com"); ("timestamp", JStr noon); ("resetTokenId", JNull)]
    ∈ listed (get_users (conv := sqlite) w).1.
Proof.
  intros w. pose proof (quiet_healthy store_with_user) as Hh.
  destruct (list_users_exact (conv := sqlite) w Hh) as (_ & _ & _ & Hall).
  split; [exact Hh|]. exact (Hall 1 alice eq_refl).
Defined.

(** X4 at work: a user without a password is turned down. *)
Lemma create_user_requires_fields_witness :
  let w := quiet empty_store in
  let out := post_users (conv := sqlite) noon (JStr "a") JUndefined (JStr "a@x.com") w in
  healthy w ∧ status out.1 ≠ 200 ∧ db out.2 = empty_store.
Proof.
  intros w out. pose proof (quiet_healthy empty_store) as Hh.
  destruct (create_user_requires_fields (conv := sqlite) noon (JStr "a")
              JUndefined (JStr "a@x.com") w Hh) as [_ Hfail].
  assert (Hs : status out.1 ≠ 200) by discriminate.
  split; [exact Hh|]. split; [exact Hs|]. exact (proj1 (Hfail Hs)).
Defined.

(** X5 at work: a token with both fields is accepted. *)
Lemma create_reset_token_requires_fields_witness :
  let w := quiet empty_store in
  healthy w ∧
  status (post_resettoken (conv := sqlite) (JStr "tok") (JStr "2024") w).1 = 200.
Proof.
  intros w. pose proof (quiet_healthy empty_store) as Hh.
  destruct (create_reset_token_requires_fields (conv := sqlite) (JStr "tok")
              (JStr "2024") w Hh) as [Hiff _].
  split; [exact Hh|]. apply (proj2 Hiff). split; discriminate.
Defined.

(** X6 at work: a transaction without a description is accepted. *)
Lemma create_transaction_requires_fields_witness :
  let w := quiet store_with_user in
  fault_free w ∧
  status (post_transactions (conv := sqlite) noon (JNum 1) (JBool true)
            (JNum 500) (JNum 2) JUndefined w).1 = 200.
Proof.
  intros w.
  assert (Hf : fault_free w) by (intros m Hm; by apply elem_of_nil in Hm).
  split; [exact Hf|].
  apply (proj2 (create_transaction_requires_fields (conv := sqlite) noon (JNum 1)
                  (JBool true) (JNum 500) (JNum 2) JUndefined w Hf)).
  repeat split; discriminate.
Defined.

(** X7 at work: the first token of a new store is found under key 1. *)
Lemma reset_token_round_trip_witness :
  let out := post_resettoken (conv := sqlite) (JStr "tok")
               (JStr "2024-05-02T12:00:00.000Z") (quiet store_with_user) in
  let w' := quiet (db out.2) in
  status out.1 = 200 ∧ healthy w' ∧
  ∃ id, field "id" out.1 = Some (JNum id) ∧
        listed (get_resettoken (conv := sqlite) (JStr "tok") w').1 ≡ₚ
          [[("id", JNum id); ("token", JStr "tok");
            ("expiresAt", JStr "2024-05-02T12:00:00.000Z")]].
Proof.
  intros out w'. pose proof (quiet_healthy (db out.2)) as Hh.
  destruct (reset_token_round_trip (conv := sqlite) "tok"
              (JStr "2024-05-02T12:00:00.000Z") (quiet store_with_user) w'
              eq_refl eq_refl Hh) as (id & Hr & _ & Hp & _).
  split; [reflexivity|]. split; [exact Hh|].
  exists id. split; [|exact Hp].
  fold out in Hr. rewrite Hr. reflexivity.
Defined.

(** X8 at work: the second user joins the first in the listing. *)
Lemma create_user_then_list_witness :
  let out := post_users (conv := sqlite) noon (JStr "b") (JStr "q")
               (JStr "b@x.com") (quiet store_with_user) in
  let w' := quiet (db out.2) in
  status out.1 = 200 ∧ healthy w' ∧
  ∃ id, field "userid" out.1 = Some (JNum id) ∧
        listed (get_users (conv := sqlite) w').1 ≡ₚ
          [("userid", JNum id); ("username", JStr "b"); ("password", JStr "q");
           ("email", JStr "b@x.com"); ("timestamp", JStr noon);
           ("resetTokenId", JNull)]
          :: listed (get_users (conv := sqlite) (quiet store_with_user)).1.
Proof.
  intros out w'. pose proof (quiet_healthy (db out.2)) as Hh.
  destruct (create_user_then_list (conv := sqlite) noon (JStr "b") (JStr "q")
              (JStr "b@x.com") (quiet store_with_user) w' eq_refl eq_refl Hh)
    as (id & Hid & Hp).
  split; [reflexivity|]. split; [exact Hh|]. exists id. split; [exact Hid|exact Hp].
Defined.

(** X9 at work: user 1 changes the password to a number, which is stored as
    its text. *)
Lemma update_password_effect_witness :
  let w := quiet store_with_user in
  let out := put_password (conv := sqlite) (JNum 1) (JNum 1234) w in
  healthy w ∧
  rowid_of (conv := sqlite) (bind_param (JNum 1)) = Some 1 ∧
  users (db w) !! 1 = Some alice ∧
  bind_param (JNum 1234) ≠ VNull ∧
  out.1 = Response 200 (Obj [("userid", JNum 1); ("password", JNum 1234)]) ∧
  users (db out.2) =
    <[1 := UserRow (VText "a") (VText "1234") (VText "a@x.com") (VText noon) VNull]>
      {[1 := alice]}.
Proof.
  intros w out. pose proof (quiet_healthy store_with_user) as Hh.
  assert (Hn : bind_param (JNum 1234) ≠ VNull) by discriminate.
  destruct (update_password_effect (conv := sqlite) (JNum 1) (JNum 1234) 1 alice
              w w Hh eq_refl eq_refl Hn) as (Hr & Hd & _).
  split; [exact Hh|]. split; [reflexivity|]. split; [reflexivity|].
  split; [exact Hn|]. split; [exact Hr|].
  fold out in Hd. rewrite Hd. reflexivity.
Defined.

(** X10 at work: user 1 is given reset token 1, which the listing then shows
    as the string "1". *)
Lemma assign_reset_token_effect_witness :
  let w := quiet store_with_token in
  let out := put_users (conv := sqlite) (JNum 1) (JNum 1) w in
  healthy w ∧
  rowid_of (conv := sqlite) (bind_param (JNum 1)) = Some 1 ∧
  users (db w) !! 1 = Some alice ∧
  out.1 = Response 200 (Obj [("userid", JNum 1); ("tokenid", JNum 1)]) ∧
  [("userid", JNum 1); ("username", JStr "a"); ("password", JStr "p");
   ("email", JStr "a@x.com"); ("timestamp", JStr noon);
   ("resetTokenId", JStr "1")]
    ∈ listed (get_users (conv := sqlite) (quiet (db out.2))).1.
Proof.
  intros w out. pose proof (quiet_healthy store_with_token) as Hh.
  destruct (assign_reset_token_effect (conv := sqlite) (JNum 1) (JNum 1) 1 alice
              w (quiet (db out.2)) Hh eq_refl eq_refl) as (Hr & _ & _ & _ & Hl).
  split; [exact Hh|]. split; [reflexivity|]. split; [reflexivity|].
  split; [exact Hr|].
  apply (proj2 (Hl eq_refl (quiet_healthy _) _)). left. reflexivity.
Defined.

(** X11 at work: alice outlives a password change and a delete request. *)
Lemma users_persist_witness :
  users store_with_user !! 1 = Some alice ∧
  ∃ u', users (run (conv := sqlite) store_with_user
                 [ Event noon (PUT_api_password (JNum 1) (JStr "new")) [];
                   Event noon (DELETE_api_transactions "1") [] ]).2 !! 1
        = Some u' ∧
        username u' = VText "a" ∧ email u' = VText "a@x.com".
Proof.
  split; [reflexivity|].
  destruct (users_persist (conv := sqlite) store_with_user
              [ Event noon (PUT_api_password (JNum 1) (JStr "new")) [];
                Event noon (DELETE_api_transactions "1") [] ] 1 alice eq_refl)
    as (u' & Hu & Hn & He & _).
  exists u'. split; [exact Hu|]. split; [exact Hn|exact He].
Defined.

(** X12 at work: the token of the store outlives another token. *)
Lemma reset_tokens_persist_witness :
  resetTokens store_with_token !! 1 = Some reset_row ∧
  resetTokens (run (conv := sqlite) store_with_token
                 [ Event noon post_token [] ]).2 !! 1 = Some reset_row.
Proof.
  split; [reflexivity|].
  exact (reset_tokens_persist (conv := sqlite) store_with_token
           [ Event noon post_token [] ] 1 reset_row eq_refl).
Defined.

(** X13 at work: after a second expense the coffee is the row it was. *)
Lemma transactions_never_rewritten_witness :
  let es := [ Event noon (post_coffee (JNum 1) (JStr "tea")) [] ] in
  transactions (run (conv := sqlite) store_with_transaction es).2 !! 1 = Some coffee ∧
  (transactions store_with_transaction !! 1 = Some coffee ∨
   transactions_seq store_with_transaction < 1).
Proof.
  intros es. split; [reflexivity|].
  exact (transactions_never_rewritten (conv := sqlite) store_with_transaction es
           1 coffee eq_refl).
Defined.

(** X14 at work: the coffee of user 1 gets key 1 and one mapping row. *)
Lemma create_transaction_one_mapping_witness :
  let w := quiet store_with_user in
  let out := post_transactions (conv := sqlite) noon (JNum 1) (JBool true)
               (JNum 500) (JNum 2) (JStr "coffee") w in
  status out.1 = 200 ∧
  mapping_in_sequence (db w) ∧
  user_transaction_mapping (db out.2) = [] ++ [MappingRow (VInt 1) (VInt 1)] ∧
  mapping_in_sequence (db out.2).
Proof.
  intros w out.
  assert (Hs : mapping_in_sequence (db w))
    by (intros r k Hr; by apply elem_of_nil in Hr).
  destruct (create_transaction_one_mapping (conv := sqlite) noon (JNum 1)
              (JBool true) (JNum 500) (JNum 2) (JStr "coffee") w eq_refl Hs)
    as (_ & _ & _ & _ & Hm & _ & _ & _ & Hs').
  split; [reflexivity|]. split; [exact Hs|]. split; [exact Hm|exact Hs'].
Defined.

(** X15 at work: a tea of user 1 comes after the coffee in the listing of
    user 1 and does not show in that of user 2. *)
Lemma create_extends_one_listing_witness :
  let w := quiet store_with_transaction in
  let out := post_transactions (conv := sqlite) noon (JNum 1) (JBool true)
               (JNum 300) (JNum 2) (JStr "tea") w in
  let w' := quiet (db out.2) in
  status out.1 = 200 ∧
  mapping_in_sequence (db w) ∧
  healthy w' ∧
  listed (get_transactions (conv := sqlite) "1" w').1 =
    listed (get_transactions (conv := sqlite) "1" w).1
      ++ [transaction_object
            (2, TransactionRow (VInt 1) (VInt 300) (VInt 2) (VText "tea")
                  (VText noon))] ∧
  listed (get_transactions (conv := sqlite) "2" w').1 =
    listed (get_transactions (conv := sqlite) "2" w).1 ++ [].
Proof.
  intros w out w'.
  assert (Hs : mapping_in_sequence (db w)).
  { intros r k Hr Hk. apply list_elem_of_singleton in Hr. subst r.
    injection Hk as <-. reflexivity. }
  pose proof (quiet_healthy (db out.2)) as Hh.
  split; [reflexivity|]. split; [exact Hs|]. split; [exact Hh|]. split.
  - exact (create_extends_one_listing (conv := sqlite) noon (JNum 1) (JBool true)
             (JNum 300) (JNum 2) (JStr "tea") w "1" w' eq_refl Hs eq_refl Hh).
  - exact (create_extends_one_listing (conv := sqlite) noon (JNum 1) (JBool true)
             (JNum 300) (JNum 2) (JStr "tea") w "2" w' eq_refl Hs eq_refl Hh).
Defined.

(** X16 at work: with transaction 1 deleted, the listing of user 1 is what
    it was without the entries of transaction 1. *)
Lemma delete_filters_listings_witness :
  let w := quiet store_with_duplicate_mapping in
  let out := delete_transactions (conv := sqlite) "1" w in
  let w' := quiet (db out.2) in
  status out.1 = 200 ∧ healthy w' ∧
  ∃ k, decimal "1" = Some k ∧
       listed (get_transactions (conv := sqlite) "1" w').1 =
         filter (λ o, has_transactionid k o = false)
                (listed (get_transactions (conv := sqlite) "1" w).1).
Proof.
  intros w out w'. pose proof (quiet_healthy (db out.2)) as Hh.
  split; [reflexivity|]. split; [exact Hh|].
  exact (delete_filters_listings (conv := sqlite) "1" w "1" w' eq_refl eq_refl Hh).
Defined.

(** X17 at work: the second delete of transaction 1. *)
Lemma delete_twice_not_found_witness :
  let w := quiet store_with_transaction in
  let out := delete_transactions (conv := sqlite) "1" w in
  let w' := quiet (db out.2) in
  status out.1 = 200 ∧ healthy w' ∧
  (delete_transactions (conv := sqlite) "1" w').1 =
    Response 404 (error_json "Transaction not found").
Proof.
  intros w out w'. pose proof (quiet_healthy (db out.2)) as Hh.
  split; [reflexivity|]. split; [exact Hh|].
  exact (proj1 (delete_twice_not_found (conv := sqlite) "1" w w'
                  eq_refl eq_refl Hh)).
Defined.

(** X18 at work: a new reset token leaves users, transactions and mapping
    rows alone. *)
Lemma routes_keep_to_their_tables_witness :
  let d' := db (handle (conv := sqlite) noon post_token
                  (quiet store_with_transaction)).2 in
  writes_users post_token = false ∧
  writes_transactions post_token = false ∧
  users d' = users store_with_transaction ∧
  transactions d' = transactions store_with_transaction ∧
  user_transaction_mapping d' = user_transaction_mapping store_with_transaction.
Proof.
  intros d'.
  destruct (routes_keep_to_their_tables (conv := sqlite) noon post_token
              (quiet store_with_transaction)) as (Hu & Ht & _).
  split; [reflexivity|]. split; [reflexivity|].
  split; [exact (proj1 (Hu eq_refl))|].
  destruct (Ht eq_refl) as (Ht1 & _ & Ht3). split; [exact Ht1|exact Ht3].
Defined.

(** X19 at work: a create and a delete, undisturbed, leave no mapping row
    behind. *)
Lemma no_dangling_mapping_witness :
  let es := [ Event noon (post_coffee (JNum 1) (JStr "coffee")) [];
              Event noon (DELETE_api_transactions "1") [] ] in
  Forall undisturbed es ∧
  no_dangling store_with_user ∧
  no_dangling (run (conv := sqlite) store_with_user es).2.
Proof.
  intros es.
  assert (Hes : Forall undisturbed es).
  { repeat constructor; intros m Hm; by apply elem_of_nil in Hm. }
  assert (Hd : no_dangling store_with_user).
  { intros r Hr. by apply elem_of_nil in Hr. }
  split; [exact Hes|]. split; [exact Hd|].
  exact (no_dangling_mapping (conv := sqlite) store_with_user es Hes Hd).
Defined.

(** X20 at work: three sign-ups on a new store, one of them turned down and
    a reset token in between, report the keys 1 and 2. *)
Lemma userids_consecutive_witness :
  let es := [ Event noon post_alice [];
              Event noon (POST_api_users (JStr "b") JNull (JStr "b@x.com")) [];
              Event noon post_token [];
              Event noon (POST_api_users (JStr "c") (JStr "r") (JStr "c@x.com")) [] ] in
  users_in_sequence empty_store ∧
  userids_created (run (conv := sqlite) empty_store es).1 = seqZ 1 2.
Proof.
  intros es.
  assert (Hd : users_in_sequence empty_store).
  { split; [reflexivity|]. intros k u Hu. simpl in Hu.
    by rewrite lookup_empty in Hu. }
  split; [exact Hd|].
  exact (userids_consecutive (conv := sqlite) empty_store es Hd).
Defined.

(** X21 at work: two reset tokens on a new store report the keys 1 and 2. *)
Lemma tokenids_consecutive_witness :
  let es := [ Event noon post_token []; Event noon post_alice [];
              Event noon post_token [] ] in
  resetTokens_in_sequence empty_store ∧
  tokenids_created (run (conv := sqlite) empty_store es).1 = seqZ 1 2.
Proof.
  intros es.
  assert (Hd : resetTokens_in_sequence empty_store).
  { split; [reflexivity|]. intros k u Hu. simpl in Hu.
    by rewrite lookup_empty in Hu. }
  split; [exact Hd|].
  exact (tokenids_consecutive (conv := sqlite) empty_store es Hd).
Defined.
